(** * project-update: field resolution and batch update

    A shallow embedding of the action's entry point ([getInputs] and the
    update loop of [run]) together with the JavaScript string and array
    primitives that loop relies on.

    Conventions.
    - A JavaScript string is a [string]; each [ascii] is one code unit in
      the range 0..255 (the ISO-8859-1 part of UTF-16).
    - A JavaScript number that is only ever produced by [parseInt] and
      consumed as an array index is a [Z]; NaN is [None].
    - The object built by [getInputs] is kept as the list of its own
      properties in the order of their creation; [Object.entries] lists
      the array-index keys first, and an assignment to [__proto__] creates
      no property. *)

From Stdlib Require Import Bool List ZArith NArith Lia Permutation.
From Stdlib Require Import Strings.Ascii Strings.String.
From Stdlib Require Decimal.
From Stdlib Require Import DecimalString DecimalNat.
Import ListNotations.

Local Open Scope string_scope.
Local Open Scope list_scope.

(** ** JavaScript primitives *)

Module JS.

Definition code (c : ascii) : N := N_of_ascii c.

Definition between (lo hi : N) (c : ascii) : bool :=
  (N.leb lo (code c) && N.leb (code c) hi)%bool.

(** Code units with a lowercase counterpart: A-Z, and in the upper half
    U+00C0..U+00DE except the multiplication sign U+00D7. *)
Definition isUpper (c : ascii) : bool :=
  (between 65 90 c || between 192 214 c || between 216 222 c)%bool.

Definition toLowerCase_code (c : ascii) : ascii :=
  if isUpper c then ascii_of_N (code c + 32) else c.

(** [String.prototype.toLowerCase] *)
Fixpoint toLowerCase (s : string) : string :=
  match s with
  | EmptyString => EmptyString
  | String c s' => String (toLowerCase_code c) (toLowerCase s')
  end.

(** [String.prototype.startsWith] (no position argument) *)
Definition startsWith (s search : string) : bool := String.prefix search s.

(** [String.prototype.endsWith] (no end position argument) *)
Definition endsWith (s search : string) : bool :=
  let n := String.length s in
  let m := String.length search in
  if Nat.leb m n then String.eqb (String.substring (n - m) m s) search
  else false.

(** [String.prototype.slice (start, end)], with the relative-index
    clamping of the language. *)
Definition clampIndex (len : nat) (k : Z) : nat :=
  if (k <? 0)%Z then Z.to_nat (Z.max (Z.of_nat len + k) 0)
  else Nat.min (Z.to_nat k) len.

Definition slice (s : string) (start end_ : Z) : string :=
  let len := String.length s in
  let from := clampIndex len start in
  let to := clampIndex len end_ in
  String.substring from (to - from) s.

(** [String.prototype.split] with a one-character separator.  The result
    is never empty: the empty string splits into one empty piece. *)
Fixpoint split_go (sep : ascii) (s cur : string) : list string :=
  match s with
  | EmptyString => [cur]
  | String c s' =>
      if Ascii.eqb c sep then cur :: split_go sep s' EmptyString
      else split_go sep s' (cur ++ String c EmptyString)
  end.

Definition split (sep : ascii) (s : string) : list string :=
  split_go sep s EmptyString.

(** *** parseInt *)

(** WhiteSpace and LineTerminator code units below 256. *)
Definition isWhiteSpace (c : ascii) : bool :=
  (between 9 13 c || N.eqb (code c) 32 || N.eqb (code c) 160)%bool.

Fixpoint trimStart (s : string) : string :=
  match s with
  | EmptyString => EmptyString
  | String c s' => if isWhiteSpace c then trimStart s' else s
  end.

Definition digitValue (c : ascii) : option N :=
  if between 48 57 c then Some (code c - 48)%N
  else if between 97 122 c then Some (code c - 87)%N
  else if between 65 90 c then Some (code c - 55)%N
  else None.

Definition radixDigit (R : N) (c : ascii) : option N :=
  match digitValue c with
  | Some d => if N.ltb d R then Some d else None
  | None => None
  end.

(** The value of the longest prefix of radix-[R] digits; [acc] is the
    value read so far, [None] while no digit has been read. *)
Fixpoint parseDigits (R : N) (s : string) (acc : option N) : option N :=
  match s with
  | EmptyString => acc
  | String c s' =>
      match radixDigit R c with
      | Some d =>
          parseDigits R s'
            (Some (match acc with Some a => a * R + d | None => d end)%N)
      | None => acc
      end
  end.

Definition stripSign (s : string) : Z * string :=
  match s with
  | String "-" r => ((-1)%Z, r)
  | String "+" r => (1%Z, r)
  | _ => (1%Z, s)
  end.

Definition stripPrefix (s : string) : N * string :=
  match s with
  | String "0" (String "x" r) => (16%N, r)
  | String "0" (String "X" r) => (16%N, r)
  | _ => (10%N, s)
  end.

(** [parseInt (s)] with the radix left out.  The sign of a zero result is
    not kept: it makes no difference to an array access. *)
Definition parseInt (s : string) : option Z :=
  let (sign, s1) := stripSign (trimStart s) in
  let (R, s2) := stripPrefix s1 in
  match parseDigits R s2 None with
  | Some m => Some (sign * Z.of_N m)%Z
  | None => None
  end.

(** [arr[index]] for a number [index]: [undefined] unless [index] is the
    position of an element. *)
Definition at_index {A : Type} (arr : list A) (index : Z) : option A :=
  if (index <? 0)%Z then None else nth_error arr (Z.to_nat index).

(** Truthiness of [arr[i]] for an array of strings. *)
Definition truthy (v : option string) : bool :=
  match v with
  | Some (String _ _) => true
  | _ => false
  end.

(** [Array.prototype.reduce] with an initial value; the callback also
    receives the position of the element. *)
Fixpoint reduce_from {A B : Type} (f : B -> A -> nat -> B)
    (l : list A) (i : nat) (acc : B) : B :=
  match l with
  | [] => acc
  | x :: l' => reduce_from f l' (S i) (f acc x i)
  end.

Definition reduce {A B : Type} (f : B -> A -> nat -> B)
    (l : list A) (init : B) : B :=
  reduce_from f l 0 init.

End JS.

(** ** Data model: the project schema as [projectFieldsGet] returns it *)

Module Iteration.
Record t : Type := mk { id : string; title : string }.
End Iteration.

Module SelectOption.
Record t : Type := mk { id : string; name : string }.
End SelectOption.

(** [settings.configuration] of an iteration field.  [iterations] is
    optional because the code tests it; the payload of an iteration field
    carries both arrays. *)
Module Configuration.
Record t : Type := mk {
  iterations : option (list Iteration.t);
  completed_iterations : list Iteration.t
}.
End Configuration.

(** The parsed [settings] of a field; either member may be missing. *)
Module Settings.
Record t : Type := mk {
  configuration : option Configuration.t;
  options : option (list SelectOption.t)
}.
End Settings.

(** One node of the schema; [settings] is [None] for JSON [null]. *)
Module Field.
Record t : Type := mk {
  id : string;
  name : string;
  settings : option Settings.t
}.
End Field.

(** ** The object [ret.fields]

    An object created by [{}], with string values: the list of its own
    properties, in the order in which they were created. *)

Module Obj.

Definition t : Type := list (string * string).

(** The value of the own property [k], if there is one. *)
Fixpoint get (obj : t) (k : string) : option string :=
  match obj with
  | [] => None
  | (k', v') :: rest => if String.eqb k' k then Some v' else get rest k
  end.

(** Writing the own property [k]: an existing one keeps its place, a new
    one is created last. *)
Fixpoint put (obj : t) (k v : string) : t :=
  match obj with
  | [] => [(k, v)]
  | (k', v') :: rest =>
      if String.eqb k' k then (k', v) :: rest else (k', v') :: put rest k v
  end.

(** [obj[k] = v] for a string [v].  The key [__proto__] reaches the setter
    inherited from [Object.prototype], which ignores a value that is not an
    object: no own property is created. *)
Definition set (obj : t) (k v : string) : t :=
  if String.eqb k "__proto__" then obj else put obj k v.

(** The value of a string of decimal digits. *)
Fixpoint digits_value (s : string) (acc : N) : option N :=
  match s with
  | EmptyString => Some acc
  | String c s' =>
      if JS.between 48 57 c then digits_value s' (acc * 10 + (JS.code c - 48))%N
      else None
  end.

(** The array index a key is, if it is one: the canonical decimal numeral
    of an integer below 2^32 - 1. *)
Definition array_index (k : string) : option N :=
  match k with
  | EmptyString => None
  | String c r =>
      if Ascii.eqb c "0" then
        match r with
        | EmptyString => Some 0%N
        | String _ _ => None
        end
      else
        match digits_value k 0 with
        | Some n => if N.ltb n 4294967295 then Some n else None
        | None => None
        end
  end.

Fixpoint insert_by_index (p : N * (string * string))
    (l : list (N * (string * string))) : list (N * (string * string)) :=
  match l with
  | [] => [p]
  | q :: l' =>
      if N.leb (fst p) (fst q) then p :: l else q :: insert_by_index p l'
  end.

Fixpoint sort_by_index (l : list (N * (string * string)))
    : list (N * (string * string)) :=
  match l with
  | [] => []
  | p :: l' => insert_by_index p (sort_by_index l')
  end.

(** The properties whose key is an array index, with that index. *)
Fixpoint indexed (obj : t) : list (N * (string * string)) :=
  match obj with
  | [] => []
  | p :: rest =>
      match array_index (fst p) with
      | Some n => (n, p) :: indexed rest
      | None => indexed rest
      end
  end.

(** The other properties, in the order of their creation. *)
Fixpoint named (obj : t) : list (string * string) :=
  match obj with
  | [] => []
  | p :: rest =>
      match array_index (fst p) with
      | Some _ => named rest
      | None => p :: named rest
      end
  end.

(** [Object.entries (obj)]: the properties whose key is an array index
    first, by ascending index, then the others in the order of their
    creation. *)
Definition entries (obj : t) : list (string * string) :=
  map snd (sort_by_index (indexed obj)) ++ named obj.

(** The keys of the own properties, in the order of their creation. *)
Definition keys (obj : t) : list string := map fst obj.

End Obj.

(** ** getInputs: the part that builds [ret.fields]

    The arguments stand for [core.getInput('field-names')] and
    [core.getInput('field-values')].  The result is [None] when
    [ret.fields] is left undefined. *)

Definition getInputs_reducer (fieldsValueArr : list string)
    (obj : Obj.t) (f : string) (i : nat) : Obj.t :=
  if JS.truthy (nth_error fieldsValueArr i) then
    match nth_error fieldsValueArr i with
    | Some v => Obj.set obj f v
    | None => obj
    end
  else obj.

Definition getInputs_fields (fieldNames fieldsValue : string) : option Obj.t :=
  let fieldsValueArr := JS.split "," fieldsValue in
  if String.eqb fieldNames "" then None
  else Some (JS.reduce (getInputs_reducer fieldsValueArr)
               (JS.split "," fieldNames) []).

(** ** run: matching a field and resolving a value *)

(** [projectFields.find((field) => name === field.name)] *)
Definition find_field (projectFields : list Field.t) (name : string)
    : option Field.t :=
  find (fun field => String.eqb name (Field.name field)) projectFields.

(** [value.startsWith('[') && value.endsWith(']')] *)
Definition isBracketed (value : string) : bool :=
  (JS.startsWith value "[" && JS.endsWith value "]")%bool.

(** [a || b] on two results of [find] *)
Definition or_else {A : Type} (a b : option A) : option A :=
  match a with
  | Some _ => a
  | None => b
  end.

(** The local [iteration] of the loop body, for an iteration field. *)
Definition iteration_of (iterations completed_iterations : list Iteration.t)
    (value : string) : option Iteration.t :=
  if isBracketed value then
    match JS.parseInt (JS.slice value 1 (-1)) with
    | Some index => JS.at_index iterations index
    | None => None
    end
  else
    or_else
      (find (fun i => String.eqb (JS.toLowerCase (Iteration.title i))
                                 (JS.toLowerCase value)) iterations)
      (find (fun i => String.eqb (JS.toLowerCase (Iteration.title i))
                                 (JS.toLowerCase value)) completed_iterations).

(** The local [option] of the loop body, for a single-select field. *)
Definition option_of (options : list SelectOption.t) (value : string)
    : option SelectOption.t :=
  if isBracketed value then
    match JS.parseInt (JS.slice value 1 (-1)) with
    | Some index => JS.at_index options index
    | None => None
    end
  else
    find (fun o => String.eqb (JS.toLowerCase (SelectOption.name o))
                              (JS.toLowerCase value)) options.

(** [field.settings.configuration?.iterations] *)
Definition iterations_of_settings (s : Settings.t)
    : option (list Iteration.t * list Iteration.t) :=
  match Settings.configuration s with
  | Some c =>
      match Configuration.iterations c with
      | Some its => Some (its, Configuration.completed_iterations c)
      | None => None
      end
  | None => None
  end.

(** The value of the local [_value] when the update is sent. *)
Definition _value (field : Field.t) (value : string) : string :=
  match Field.settings field with
  | Some s =>
      match iterations_of_settings s with
      | Some (its, completed) =>
          match iteration_of its completed value with
          | Some iteration => Iteration.id iteration
          | None => value
          end
      | None =>
          match Settings.options s with
          | Some opts =>
              match option_of opts value with
              | Some o => SelectOption.id o
              | None => value
              end
          | None => value
          end
      end
  | None => value
  end.

(** ** run: effects

    The loop talks to the outside twice per pair at most: it sends one
    update mutation and it writes one line with [core.info].  Both are
    kept in the state; a rejected request is an exception. *)

Module Mutation.
Record t : Type := mk {
  projectId : string;
  itemId : string;
  fieldId : string;
  value : string
}.
End Mutation.

(** What [octokit.graphql] does with a mutation: it resolves to the
    response's [projectNextItem.id] (which may be missing) or rejects with
    an error. *)
Inductive Response : Type :=
| Resolves (id : option string)
| Rejects (err : string).

(** The three lines the loop can write. *)
Inductive Line : Type :=
| FailedToFind (name : string)
| SuccessfullyUpdated (name value : string) (id : option string)
| FailedToUpdate (name value err : string).

Definition Line_name (l : Line) : string :=
  match l with
  | FailedToFind n => n
  | SuccessfullyUpdated n _ _ => n
  | FailedToUpdate n _ _ => n
  end.

Module Eff.

Record World : Type := mkWorld {
  requests : list Mutation.t;   (* mutations sent so far, oldest first *)
  info : list Line;             (* lines written by core.info, oldest first *)
  console : list (option string)  (* values printed by console.log *)
}.

Inductive Completion (A : Type) : Type :=
| Normal (a : A)
| Throw (err : string).
Arguments Normal {A} a.
Arguments Throw {A} err.

Definition M (A : Type) : Type := World -> Completion A * World.

Definition ret {A : Type} (a : A) : M A := fun w => (Normal a, w).

Definition bind {A B : Type} (m : M A) (k : A -> M B) : M B :=
  fun w =>
    match m w with
    | (Normal a, w') => k a w'
    | (Throw e, w') => (Throw e, w')
    end.

(** [try { body } catch (err) { handler }] *)
Definition try_catch {A : Type} (body : M A) (handler : string -> M A) : M A :=
  fun w =>
    match body w with
    | (Normal a, w') => (Normal a, w')
    | (Throw e, w') => handler e w'
    end.

(** [core.info (line)] *)
Definition core_info (l : Line) : M unit :=
  fun w => (Normal tt, mkWorld (requests w) (info w ++ [l]) (console w)).

(** [console.log (id)] *)
Definition console_log (id : option string) : M unit :=
  fun w => (Normal tt, mkWorld (requests w) (info w) (console w ++ [id])).

(** [for (const x of l) { body }]: an exception leaving the body leaves
    the loop. *)
Fixpoint for_of {A : Type} (l : list A) (body : A -> M unit) : M unit :=
  match l with
  | [] => ret tt
  | x :: l' => bind (body x) (fun _ => for_of l' body)
  end.

End Eff.

Notation "x <- m ;; k" := (Eff.bind m (fun x => k))
  (at level 61, m at next level, right associativity).

Section Run.

(** The remote API: its answer to a mutation, given those sent before. *)
Variable graphql : list Mutation.t -> Mutation.t -> Response.

(** [projectFieldUpdate]: sends the mutation and returns the [id] of the
    item in the response. *)
Definition projectFieldUpdate (projectId itemId fieldId value : string)
    : Eff.M (option string) :=
  fun w =>
    let m := Mutation.mk projectId itemId fieldId value in
    let w' :=
      Eff.mkWorld (Eff.requests w ++ [m]) (Eff.info w) (Eff.console w) in
    match graphql (Eff.requests w) m with
    | Resolves id => (Eff.Normal id, w')
    | Rejects err => (Eff.Throw err, w')
    end.

Variable projectId itemId : string.
Variable projectFields : list Field.t.

(** The body of the loop over [Object.entries (fields)]. *)
Definition update_item (entry : string * string) : Eff.M unit :=
  let (name, value) := entry in
  match find_field projectFields name with
  | None => Eff.core_info (FailedToFind name)
  | Some field =>
      let _value := _value field value in
      Eff.try_catch
        (updatedFieldId <-
           projectFieldUpdate projectId itemId (Field.id field) _value ;;
         Eff.core_info (SuccessfullyUpdated name _value updatedFieldId))
        (fun err => Eff.core_info (FailedToUpdate name _value err))
  end.

(** [if (fields) { ... for (const [name, value] of Object.entries(fields)) ... }] *)
Definition update_project_items (fields : option Obj.t) : Eff.M unit :=
  match fields with
  | Some obj => Eff.for_of (Obj.entries obj) update_item
  | None => Eff.ret tt
  end.

End Run.

(** A server that accepts every mutation, and one that rejects every one. *)
Definition accept_all (_ : list Mutation.t) (_ : Mutation.t) : Response :=
  Resolves (Some "ITEM").

Definition reject_all (_ : list Mutation.t) (_ : Mutation.t) : Response :=
  Rejects "Bad credentials".

Definition empty_world : Eff.World := Eff.mkWorld [] [] [].

(** The schema of the README's example. *)
Definition status_field : Field.t :=
  Field.mk "F1" "Status"
    (Some (Settings.mk None
             (Some [SelectOption.mk "O1" "Todo"; SelectOption.mk "O2" "Done"]))).

Definition iteration_field : Field.t :=
  Field.mk "F2" "Iteration"
    (Some (Settings.mk
             (Some (Configuration.mk
                      (Some [Iteration.mk "I9" "Sprint 5"])
                      [Iteration.mk "I8" "Sprint 4"]))
             None)).

Definition text_field : Field.t := Field.mk "F3" "Notes" None.

Definition example_schema : list Field.t :=
  [status_field; iteration_field; text_field].

(** ** Vocabulary of the properties *)

(** [inner] between a leading [[] and a trailing []]. *)
Definition wrap (inner : string) : string := ("[" ++ inner ++ "]")%string.

(** The decimal numeral of [i], as [String (i)] prints it. *)
Definition decimal (i : nat) : string := NilEmpty.string_of_uint (Nat.to_uint i).

(** The bracket-index form [[i]]. *)
Definition bracket_index (i : nat) : string := wrap (decimal i).

(** [value] is bracket-shaped and what it encloses reads as the position of
    an element of [arr]. *)
Definition valid_bracket_index {A : Type} (arr : list A) (value : string) : Prop :=
  exists inner i,
    value = wrap inner /\ JS.parseInt inner = Some (Z.of_nat i) /\ i < List.length arr.

(** Two code units that are the same letter, whatever their case. *)
Definition same_letter (a b : ascii) : bool :=
  (Ascii.eqb a b
   || (JS.isUpper a && N.eqb (JS.code b) (JS.code a + 32))
   || (JS.isUpper b && N.eqb (JS.code a) (JS.code b + 32)))%bool.

(** Every code unit, for checks by enumeration. *)
Definition all_ascii : list ascii := map ascii_of_nat (seq 0 256).

(** Equality of strings up to the case of their letters. *)
Fixpoint eq_ignore_case (a b : string) : bool :=
  match a, b with
  | EmptyString, EmptyString => true
  | String x a', String y b' => (same_letter x y && eq_ignore_case a' b')%bool
  | _, _ => false
  end.

(** [x] is the first element of [l] that satisfies [p]. *)
Definition first_match {A : Type} (p : A -> bool) (l : list A) (x : A) : Prop :=
  exists l1 l2, l = l1 ++ x :: l2 /\ p x = true /\ forall y, In y l1 -> p y = false.

Definition no_match {A : Type} (p : A -> bool) (l : list A) : Prop :=
  forall y, In y l -> p y = false.

(** The kinds of field the loop tells apart. *)
Definition is_iteration_field (field : Field.t)
    (iterations completed_iterations : list Iteration.t) : Prop :=
  exists s, Field.settings field = Some s /\
            iterations_of_settings s = Some (iterations, completed_iterations).

Definition is_option_field (field : Field.t) (options : list SelectOption.t)
    : Prop :=
  exists s, Field.settings field = Some s /\
            iterations_of_settings s = None /\
            Settings.options s = Some options.

Definition is_scalar_field (field : Field.t) : Prop :=
  Field.settings field = None \/
  exists s, Field.settings field = Some s /\
            iterations_of_settings s = None /\
            Settings.options s = None.

(** The line written for [entry] is one of those its field allows. *)
Definition outcome_for (projectFields : list Field.t)
    (entry : string * string) (line : Line) : Prop :=
  match find_field projectFields (fst entry) with
  | None => line = FailedToFind (fst entry)
  | Some field =>
      (exists id, line = SuccessfullyUpdated (fst entry)
                           (_value field (snd entry)) id) \/
      (exists err, line = FailedToUpdate (fst entry)
                            (_value field (snd entry)) err)
  end.

(** The pairs of the positions whose value is there and is not empty and
    whose name is not [__proto__], in the order of the positions. *)
Fixpoint retained (names values : list string) : list (string * string) :=
  match names, values with
  | f :: names', v :: values' =>
      if (JS.truthy (Some v) && negb (String.eqb f "__proto__"))%bool
      then (f, v) :: retained names' values'
      else retained names' values'
  | _, _ => []
  end.

(** [(f, v)] is the last pair of [pairs] whose name is [f]. *)
Definition last_pair (pairs : list (string * string)) (f v : string) : Prop :=
  exists l1 l2, pairs = l1 ++ (f, v) :: l2 /\ ~ In f (map fst l2).

(** The number of different names in a list of pairs. *)
Definition distinct_names (pairs : list (string * string)) : nat :=
  List.length (nodup string_dec (map fst pairs)).

(** Writing a list of pairs into an object, one after the other. *)
Definition of_pairs (pairs : list (string * string)) (acc : Obj.t) : Obj.t :=
  fold_left (fun obj p => Obj.put obj (fst p) (snd p)) pairs acc.

(** ** getInputs, whole

    [InputEnv.t] holds what [core.getInput] returns for each input name and
    what reading [github.context.repo.owner] does: the getter [repo] of the
    context either gives the owner, [repo_owner], or, when the environment
    names no repository, throws; [repo_error] is then the error, and
    [repo_owner] is not looked at. *)

Module InputEnv.
Record t : Type := mk {
  github_token : string;
  project_number : string;
  item_id : string;
  organization : string;
  user : string;
  field_names : string;
  field_values : string;
  repo_owner : string;
  repo_error : option string
}.
End InputEnv.

(** The interface [Input].  [projectNumber] is the integer [parseInt] read
    (a JavaScript number holds it exactly up to 2^53; it is never printed
    here); [fields] is [None] while the member is undefined. *)
Module Input.
Record t : Type := mk {
  token : string;
  projectNumber : Z;
  itemId : string;
  login : string;
  organization : string;
  user : string;
  fields : option Obj.t
}.
End Input.

(** [a || b] on two strings *)
Definition string_or (a b : string) : string :=
  match a with
  | EmptyString => b
  | String _ _ => a
  end.

Definition nonempty (s : string) : bool :=
  match s with
  | EmptyString => false
  | String _ _ => true
  end.

(** [github.context.repo.owner], read only when the organization input is
    empty ([||] does not evaluate its right side otherwise). *)
Definition context_repo_owner (env : InputEnv.t) : Eff.Completion string :=
  match InputEnv.repo_error env with
  | Some e => Eff.Throw e
  | None => Eff.Normal (InputEnv.repo_owner env)
  end.

Definition getInputs (env : InputEnv.t) : Eff.Completion Input.t :=
  match JS.parseInt (InputEnv.project_number env) with
  | None => Eff.Throw "No input 'projectNumber'"
  | Some projectNumber =>
      match
        (if nonempty (InputEnv.organization env)
         then Eff.Normal (InputEnv.organization env)
         else context_repo_owner env)
      with
      | Eff.Throw e => Eff.Throw e
      | Eff.Normal organization =>
          let user := InputEnv.user env in
          let fields :=
            getInputs_fields (InputEnv.field_names env)
              (InputEnv.field_values env) in
          if nonempty organization then
            Eff.Normal (Input.mk (InputEnv.github_token env) projectNumber
                          (InputEnv.item_id env) organization organization user
                          fields)
          else if nonempty user then
            Eff.Normal (Input.mk (InputEnv.github_token env) projectNumber
                          (InputEnv.item_id env) user organization user fields)
          else Eff.Throw "Missing input 'organization' or 'user'"
      end
  end.

(** ** run, whole *)

Module Project.
Record t : Type := mk { title : string; id : option string }.
End Project.

(** The owner a project is looked up under. *)
Inductive Owner : Type :=
| OfUser (login : string)
| OfOrganization (login : string).

(** The query [projectGet] sends; [None] is the undefined [query] of the
    branch that names neither owner. *)
Definition ProjectQuery : Type := option (Owner * Z).

(** What [octokit.graphql] gives for the project query, reduced to
    [response?.organization?.projectNext || response?.user?.projectNext]. *)
Inductive ProjectResponse : Type :=
| ProjectResolves (projectNext : option Project.t)
| ProjectRejects (err : string).

(** What [projectFieldsGet] gives: the nodes with their settings parsed,
    [None] when the optional chain stops on a missing member, or a
    rejection (of the request or of [JSON.parse]). *)
Inductive FieldsResponse : Type :=
| FieldsResolves (nodes : option (list Field.t))
| FieldsRejects (err : string).

(** The calls of [core.setFailed]. *)
Inductive Failure : Type :=
| NoGitHubContext
| NoEvent
| NoOwnerInput
| ProjectNotFound (projectNumber : Z) (login : string).

(** What [run] writes besides the lines of the loop, in order. *)
Inductive Output : Type :=
| StartGroupProject (projectNumber : Z)
| InfoProject (projectNext : option Project.t)
| StartGroupUpdate
| EndGroup
| SetFailed (f : Failure)
| InfoSummary (title : string) (owner : Owner) (projectNumber : Z).

(** The error value of reading a member of [undefined]. *)
Definition TypeError : string := "TypeError".

Module Proc.

Record State : Type := mkState {
  world : Eff.World;          (* mutations sent and lines of the loop *)
  queries : list ProjectQuery; (* project queries sent *)
  fetches : list string;      (* project ids whose fields were fetched *)
  outputs : list Output
}.

Definition M (A : Type) : Type := State -> Eff.Completion A * State.

Definition ret {A : Type} (a : A) : M A := fun s => (Eff.Normal a, s).

Definition bind {A B : Type} (m : M A) (k : A -> M B) : M B :=
  fun s =>
    match m s with
    | (Eff.Normal a, s') => k a s'
    | (Eff.Throw e, s') => (Eff.Throw e, s')
    end.

Definition throw {A : Type} (e : string) : M A := fun s => (Eff.Throw e, s).

Definition output (o : Output) : M unit :=
  fun s => (Eff.Normal tt,
            mkState (world s) (queries s) (fetches s) (outputs s ++ [o])).

(** A computation of the loop, run on the loop's part of the state. *)
Definition lift {A : Type} (m : Eff.M A) : M A :=
  fun s =>
    let (c, w') := m (world s) in
    (c, mkState w' (queries s) (fetches s) (outputs s)).

Definition of_completion {A : Type} (c : Eff.Completion A) : M A :=
  fun s => (c, s).

End Proc.

Module Context.
Record t : Type := mk { has_context : bool; has_payload : bool }.
End Context.

Section RunWhole.

(** [github.getOctokit (token)]: the error it throws for a token, if any. *)
Variable getOctokit_error : string -> option string.
Variable graphql_project : ProjectQuery -> ProjectResponse.
Variable graphql_fields : string -> FieldsResponse.
Variable graphql : list Mutation.t -> Mutation.t -> Response.

Definition getOctokit (token : string) : Proc.M unit :=
  match getOctokit_error token with
  | Some err => Proc.throw err
  | None => Proc.ret tt
  end.

Definition projectGet (projectNumber : Z) (organization user : string)
    : Proc.M (option Project.t) :=
  let send (query : ProjectQuery) : Proc.M (option Project.t) :=
    fun s =>
      let s' := Proc.mkState (Proc.world s) (Proc.queries s ++ [query])
                  (Proc.fetches s) (Proc.outputs s) in
      match graphql_project query with
      | ProjectResolves p => (Eff.Normal p, s')
      | ProjectRejects err => (Eff.Throw err, s')
      end in
  if nonempty user then send (Some (OfUser user, projectNumber))
  else if nonempty organization then
    send (Some (OfOrganization organization, projectNumber))
  else Proc.bind (Proc.output (SetFailed NoOwnerInput)) (fun _ => send None).

Definition projectFieldsGet (projectId : string)
    : Proc.M (option (list Field.t)) :=
  fun s =>
    let s' := Proc.mkState (Proc.world s) (Proc.queries s)
                (Proc.fetches s ++ [projectId]) (Proc.outputs s) in
    match graphql_fields projectId with
    | FieldsResolves nodes => (Eff.Normal nodes, s')
    | FieldsRejects err => (Eff.Throw err, s')
    end.

(** The loop of [run] on what [projectFieldsGet] returned: calling [find]
    on [undefined] throws as soon as there is an entry to look up. *)
Definition update_loop (projectId itemId : string)
    (projectFields : option (list Field.t)) (fields : Obj.t) : Proc.M unit :=
  match projectFields with
  | Some nodes =>
      Proc.lift (update_project_items graphql projectId itemId nodes (Some fields))
  | None =>
      match Obj.entries fields with
      | [] => Proc.ret tt
      | _ :: _ => Proc.throw TypeError
      end
  end.

Definition run (context : Context.t) (env : InputEnv.t) : Proc.M unit :=
  if negb (Context.has_context context) then
    Proc.output (SetFailed NoGitHubContext)
  else if negb (Context.has_payload context) then
    Proc.output (SetFailed NoEvent)
  else
    Proc.bind (Proc.of_completion (getInputs env)) (fun inputs =>
    let projectNumber := Input.projectNumber inputs in
    let organization := Input.organization inputs in
    let user := Input.user inputs in
    Proc.bind (getOctokit (Input.token inputs)) (fun _ =>
    Proc.bind (Proc.output (StartGroupProject projectNumber)) (fun _ =>
    Proc.bind (projectGet projectNumber organization user) (fun projectNext =>
    Proc.bind (Proc.output (InfoProject projectNext)) (fun _ =>
    Proc.bind (Proc.output EndGroup) (fun _ =>
    match projectNext with
    | Some (Project.mk title (Some (String c id'))) =>
        let id := String c id' in
        Proc.bind
          match Input.fields inputs with
          | Some fields =>
              Proc.bind (Proc.output StartGroupUpdate) (fun _ =>
              Proc.bind (projectFieldsGet id) (fun projectFields =>
              Proc.bind (update_loop id (Input.itemId inputs) projectFields fields)
                (fun _ => Proc.output EndGroup)))
          | None => Proc.ret tt
          end
          (fun _ =>
             Proc.output
               (InfoSummary title
                  (if nonempty user then OfUser user
                   else OfOrganization organization)
                  projectNumber))
    | _ => Proc.output
             (SetFailed (ProjectNotFound projectNumber (Input.login inputs)))
    end)))))).

End RunWhole.

Definition initial_state : Proc.State := Proc.mkState empty_world [] [] [].

(** ** run of the first version of the file (src/projects.ts)

    Its loop looks fields up by name and sends the raw value; it has no
    guard on the result of [find] and no [try], and it prints the id that
    each update returns with [console.log] before it writes its line. *)

Definition throw_error {A : Type} (e : string) : Eff.M A :=
  fun w => (Eff.Throw e, w).

Section Legacy.

Variable graphql : list Mutation.t -> Mutation.t -> Response.
Variable projectId itemId : string.
Variable projectFields : list Field.t.

Definition legacy_update_item (entry : string * string) : Eff.M unit :=
  let (name, value) := entry in
  match find_field projectFields name with
  | None => throw_error TypeError
  | Some field =>
      updatedFieldId <-
        projectFieldUpdate graphql projectId itemId (Field.id field) value ;;
      _ <- Eff.console_log updatedFieldId ;;
      Eff.core_info (SuccessfullyUpdated name value updatedFieldId)
  end.

Definition legacy_update_project_items (fields : option Obj.t) : Eff.M unit :=
  match fields with
  | Some obj => Eff.for_of (Obj.entries obj) legacy_update_item
  | None => Eff.ret tt
  end.

End Legacy.

(** ** Vocabulary of the further properties *)

(** No code unit of [s] is the comma. *)
Fixpoint comma_free (s : string) : bool :=
  match s with
  | EmptyString => true
  | String c s' => (negb (Ascii.eqb c ",") && comma_free s')%bool
  end.

(** The number of commas of [s]. *)
Fixpoint commas (s : string) : nat :=
  match s with
  | EmptyString => 0
  | String c s' => if Ascii.eqb c "," then S (commas s') else commas s'
  end.

(** The mutation the loop sends for an entry, if it sends one. *)
Definition mutation_for (projectId itemId : string)
    (projectFields : list Field.t) (entry : string * string)
    : option Mutation.t :=
  match find_field projectFields (fst entry) with
  | Some field =>
      Some (Mutation.mk projectId itemId (Field.id field)
              (_value field (snd entry)))
  | None => None
  end.

(** Keeping the defined results of [f] over a list. *)
Fixpoint filter_map {A B : Type} (f : A -> option B) (l : list A) : list B :=
  match l with
  | [] => []
  | x :: l' =>
      match f x with
      | Some y => y :: filter_map f l'
      | None => filter_map f l'
      end
  end.

(** The ids a field's settings offer. *)
Definition offered_ids (field : Field.t) : list string :=
  match Field.settings field with
  | Some s =>
      match iterations_of_settings s with
      | Some (its, completed) => map Iteration.id (its ++ completed)
      | None =>
          match Settings.options s with
          | Some opts => map SelectOption.id opts
          | None => []
          end
      end
  | None => []
  end.

(** A code unit that is a decimal digit. *)
Definition isDigit (c : ascii) : bool := JS.between 48 57 c.

(** A text after which a decimal numeral still reads as itself: it does not
    go on with a digit, nor with the [x] of a hexadecimal prefix. *)
Definition ends_numeral (rest : string) : bool :=
  match rest with
  | EmptyString => true
  | String c _ =>
      (negb (isDigit c) && negb (Ascii.eqb c "x") && negb (Ascii.eqb c "X"))%bool
  end.

(** The mutation the first version's loop sends for an entry: the raw
    value, for the field of that name. *)
Definition legacy_mutation_for (projectId itemId : string)
    (projectFields : list Field.t) (entry : string * string)
    : option Mutation.t :=
  match find_field projectFields (fst entry) with
  | Some field =>
      Some (Mutation.mk projectId itemId (Field.id field) (snd entry))
  | None => None
  end.

(** A server that rejects nothing. *)
Definition accepts_all (graphql : list Mutation.t -> Mutation.t -> Response)
    : Prop :=
  forall history m, exists id, graphql history m = Resolves id.

(** The world after one more mutation was sent. *)
Definition sent_one (w : Eff.World) (m : Mutation.t) : Eff.World :=
  Eff.mkWorld (Eff.requests w ++ [m]) (Eff.info w) (Eff.console w).

(** The owner the inputs make [run] look the project up under, and link
    to: the user when there is one, the organization otherwise. *)
Definition owner_of (inputs : Input.t) : Owner :=
  if nonempty (Input.user inputs) then OfUser (Input.user inputs)
  else OfOrganization (Input.organization inputs).

Definition query_of (inputs : Input.t) : ProjectQuery :=
  Some (owner_of inputs, Input.projectNumber inputs).

Definition context_ok (context : Context.t) : Prop :=
  Context.has_context context = true /\ Context.has_payload context = true.

(** The state once the project query was sent and answered with [p]. *)
Definition after_project (s : Proc.State) (inputs : Input.t)
    (p : option Project.t) : Proc.State :=
  Proc.mkState (Proc.world s) (Proc.queries s ++ [query_of inputs])
    (Proc.fetches s)
    (Proc.outputs s ++ [StartGroupProject (Input.projectNumber inputs);
                        InfoProject p; EndGroup]).

(** A project answer the run cannot go on with: none, or one without id. *)
Definition lacks_id (p : option Project.t) : Prop :=
  match p with
  | None => True
  | Some project =>
      Project.id project = None \/ Project.id project = Some ""
  end.

(** ** JSON.stringify of a string, as [projectFieldUpdate] applies it to the
    value, and the reading of a JSON string literal *)

Module JSON.

Definition quote : ascii := ascii_of_N 34.
Definition backslash : ascii := ascii_of_N 92.

Definition hex_digit (n : N) : ascii :=
  if N.ltb n 10 then ascii_of_N (48 + n) else ascii_of_N (87 + n).

(** The text that stands for one code unit inside the quotes. *)
Definition escape (c : ascii) : string :=
  let n := JS.code c in
  if N.eqb n 8 then String backslash "b"
  else if N.eqb n 9 then String backslash "t"
  else if N.eqb n 10 then String backslash "n"
  else if N.eqb n 12 then String backslash "f"
  else if N.eqb n 13 then String backslash "r"
  else if N.eqb n 34 then String backslash (String quote "")
  else if N.eqb n 92 then String backslash (String backslash "")
  else if N.ltb n 32 then
    String backslash
      (String "u" (String "0" (String "0"
         (String (hex_digit (n / 16)) (String (hex_digit (n mod 16)) "")))))
  else String c "".

Fixpoint escape_all (s : string) : string :=
  match s with
  | EmptyString => EmptyString
  | String c s' => (escape c ++ escape_all s')%string
  end.

(** [JSON.stringify (s)] for a string [s] *)
Definition stringify (s : string) : string :=
  String quote (escape_all s ++ String quote "")%string.

Definition hex_value (c : ascii) : option N :=
  match JS.digitValue c with
  | Some d => if N.ltb d 16 then Some d else None
  | None => None
  end.

(** What follows the opening quote of a string literal, up to the closing
    quote, which has to be the end of the text. *)
Fixpoint read_body (s : string) : option string :=
  match s with
  | EmptyString => None
  | String c r =>
      if Ascii.eqb c quote then
        match r with
        | EmptyString => Some EmptyString
        | String _ _ => None
        end
      else if Ascii.eqb c backslash then
        match r with
        | String e r' =>
            let simple (x : N) := option_map (String (ascii_of_N x)) (read_body r') in
            if Ascii.eqb e "b" then simple 8%N
            else if Ascii.eqb e "t" then simple 9%N
            else if Ascii.eqb e "n" then simple 10%N
            else if Ascii.eqb e "f" then simple 12%N
            else if Ascii.eqb e "r" then simple 13%N
            else if Ascii.eqb e quote then simple 34%N
            else if Ascii.eqb e backslash then simple 92%N
            else if Ascii.eqb e "/" then simple 47%N
            else if Ascii.eqb e "u" then
              match r' with
              | String h1 (String h2 (String h3 (String h4 r''))) =>
                  match hex_value h1, hex_value h2, hex_value h3, hex_value h4 with
                  | Some a, Some b, Some c', Some d =>
                      let n := (((a * 16 + b) * 16 + c') * 16 + d)%N in
                      if N.ltb n 256 then
                        option_map (String (ascii_of_N n)) (read_body r'')
                      else None
                  | _, _, _, _ => None
                  end
              | _ => None
              end
            else None
        | EmptyString => None
        end
      else if N.ltb (JS.code c) 32 then None
      else option_map (String c) (read_body r)
  end.

(** The string a JSON string literal stands for. *)
Definition read (s : string) : option string :=
  match s with
  | String c r => if Ascii.eqb c quote then read_body r else None
  | EmptyString => None
  end.

End JSON.

(** Servers of the examples. *)
Definition client_ok (_ : string) : option string := None.

Definition no_project (_ : ProjectQuery) : ProjectResponse :=
  ProjectResolves None.

Definition roadmap (_ : ProjectQuery) : ProjectResponse :=
  ProjectResolves (Some (Project.mk "Roadmap" (Some "PN_1"))).

Definition fields_unused (_ : string) : FieldsResponse :=
  FieldsRejects "unused".

Example toLowerCase_ex : JS.toLowerCase "Sprint 5 [A-Z]" = "sprint 5 [a-z]".
Proof. reflexivity. Qed.

Example split_ex1 : JS.split "," "a,,b" = ["a"; ""; "b"].
Proof. reflexivity. Qed.

Example split_ex2 : JS.split "," "" = [""].
Proof. reflexivity. Qed.

Example split_ex3 : JS.split "," "x," = ["x"; ""].
Proof. reflexivity. Qed.

Example slice_ex1 : JS.slice "[12]" 1 (-1) = "12".
Proof. reflexivity. Qed.

Example slice_ex2 : JS.slice "[" 1 (-1) = "".
Proof. reflexivity. Qed.

Example parseInt_ex1 : JS.parseInt "12" = Some 12%Z.
Proof. reflexivity. Qed.

Example parseInt_ex2 : JS.parseInt " -7px" = Some (-7)%Z.
Proof. reflexivity. Qed.

Example parseInt_ex3 : JS.parseInt "0x1F" = Some 31%Z.
Proof. reflexivity. Qed.

Example parseInt_ex4 : JS.parseInt "abc" = None.
Proof. reflexivity. Qed.

Example parseInt_ex5 : JS.parseInt "" = None.
Proof. reflexivity. Qed.

Example endsWith_ex : JS.endsWith "[0]" "]" = true /\ JS.endsWith "" "]" = false.
Proof. split; reflexivity. Qed.

Example stringify_ex1 :
  JSON.stringify "a\b"
  = String JSON.quote ("a\\b" ++ String JSON.quote "")%string.
Proof. reflexivity. Qed.

Example stringify_ex2 :
  JSON.stringify (String (ascii_of_N 31) "5")
  = String JSON.quote ("\u001f5" ++ String JSON.quote "")%string.
Proof. reflexivity. Qed.

Example getInputs_ex1 :
  getInputs (InputEnv.mk "t" "12abc" "I" "" "octocat" "Status" "todo" "acme" None)
  = Eff.Normal (Input.mk "t" 12 "I" "acme" "acme" "octocat"
                  (Some [("Status", "todo")])).
Proof. reflexivity. Qed.

Example run_ex1 :
  update_project_items accept_all "P" "IT" example_schema
    (getInputs_fields "Status,Iteration,Unknown,Notes" "todo,[0],x,hello") empty_world
  = (Eff.Normal tt,
     Eff.mkWorld
       [Mutation.mk "P" "IT" "F1" "O1"; Mutation.mk "P" "IT" "F2" "I9";
        Mutation.mk "P" "IT" "F3" "hello"]
       [SuccessfullyUpdated "Status" "O1" (Some "ITEM");
        SuccessfullyUpdated "Iteration" "I9" (Some "ITEM");
        FailedToFind "Unknown";
        SuccessfullyUpdated "Notes" "hello" (Some "ITEM")]
       []).
Proof. reflexivity. Qed.

(** ** Strings: brackets and slices *)

Lemma length_append (a b : string) :
  String.length (a ++ b)%string = String.length a + String.length b.
Proof. induction a as [|c a IH]; simpl; [reflexivity | now rewrite IH]. Qed.

Lemma substring_prefix (a b : string) :
  String.substring 0 (String.length a) (a ++ b)%string = a.
Proof.
  induction a as [|c a IH]; simpl.
  - destruct b; reflexivity.
  - now rewrite IH.
Qed.

Lemma substring_suffix (a b : string) :
  String.substring (String.length a) (String.length b) (a ++ b)%string = b.
Proof.
  induction a as [|c a IH]; simpl.
  - induction b as [|c b IH]; simpl; [reflexivity | now rewrite IH].
  - exact IH.
Qed.

Lemma isBracketed_wrap (inner : string) : isBracketed (wrap inner) = true.
Proof.
  unfold isBracketed, wrap, JS.startsWith, JS.endsWith.
  cbn [String.prefix append]. 
  destruct (Ascii.ascii_dec "[" "[") as [_|n]; [|congruence].
  replace (String.prefix "" (inner ++ "]")%string) with true
    by (destruct (inner ++ "]")%string; reflexivity).
  cbn [andb String.length].
  rewrite length_append. cbn [String.length].
  replace (Nat.leb 1 (S (String.length inner + 1))) with true
    by (symmetry; apply Nat.leb_le; lia).
  replace (S (String.length inner + 1) - 1) with (S (String.length inner)) by lia.
  cbn [String.substring].
  change 1 with (String.length "]") at 1.
  rewrite substring_suffix. reflexivity.
Qed.

Lemma slice_wrap (inner : string) : JS.slice (wrap inner) 1 (-1) = inner.
Proof.
  unfold JS.slice, JS.clampIndex, wrap.
  cbn [append String.length]. rewrite length_append. cbn [String.length].
  change (1 <? 0)%Z with false. change (-1 <? 0)%Z with true. cbv iota.
  replace (Nat.min (Z.to_nat 1) (S (String.length inner + 1))) with 1 by lia.
  replace (Z.to_nat (Z.max (Z.of_nat (S (String.length inner + 1)) + -1) 0) - 1)
    with (String.length inner) by lia.
  cbn [String.substring]. apply substring_prefix.
Qed.

Lemma last_char_split (s : string) (c : ascii) :
  String.substring (String.length s) 1 (String c s) <> "" ->
  exists a d, String c s = (a ++ String d "")%string /\
              String.substring (String.length s) 1 (String c s) = String d "".
Proof.
  revert c. induction s as [|c' s IH]; intros c H.
  - exists "", c. split; reflexivity.
  - cbn [String.length String.substring] in *.
    destruct (IH c' H) as (a & d & E & E').
    exists (String c a), d. split; [cbn; now rewrite E | exact E'].
Qed.

Lemma isBracketed_inv (value : string) :
  isBracketed value = true -> exists inner, value = wrap inner.
Proof.
  unfold isBracketed, JS.startsWith, JS.endsWith. intros H.
  apply andb_true_iff in H. destruct H as [Hs He].
  destruct value as [|c v]; [discriminate|].
  cbn [String.prefix] in Hs.
  destruct (Ascii.ascii_dec "[" c) as [<-|]; [|discriminate].
  cbn [String.length] in He.
  replace (Nat.leb 1 (S (String.length v))) with true in He by reflexivity.
  replace (S (String.length v) - 1) with (String.length v) in He by lia.
  apply String.eqb_eq in He.
  destruct v as [|c' v].
  - cbn in He. discriminate.
  - change (String.substring (String.length (String c' v)) 1
              (String "[" (String c' v)))
      with (String.substring (String.length v) 1 (String c' v)) in He.
    destruct (last_char_split v c') as (a & d & E & E').
    + rewrite He. discriminate.
    + rewrite E' in He. injection He as ->.
      exists a. unfold wrap. cbn. now rewrite E.
Qed.

(** ** parseInt on decimal numerals *)

Lemma parseDigits_uint_acc (d : Decimal.uint) (a : N) :
  JS.parseDigits 10 (NilEmpty.string_of_uint d) (Some a)
  = Some (N.of_nat (Nat.of_uint_acc d (N.to_nat a))).
Proof.
  revert a.
  induction d; intros a; cbn [NilEmpty.string_of_uint JS.parseDigits];
    [ cbn [Nat.of_uint_acc]; now rewrite N2Nat.id | .. ];
    match goal with
    | |- context [JS.radixDigit 10 ?c] =>
        let v := eval vm_compute in (JS.radixDigit 10 c) in
        change (JS.radixDigit 10 c) with v
    end;
    cbv iota; rewrite IHd; cbn [Nat.of_uint_acc];
    rewrite Nat.tail_mul_spec; do 3 f_equal; lia.
Qed.

Lemma parseDigits_uint (d : Decimal.uint) :
  d <> Decimal.Nil ->
  JS.parseDigits 10 (NilEmpty.string_of_uint d) None
  = Some (N.of_nat (Nat.of_uint d)).
Proof.
  intros Hd. unfold Nat.of_uint.
  destruct d; [congruence | ..];
    cbn [NilEmpty.string_of_uint JS.parseDigits];
    match goal with
    | |- context [JS.radixDigit 10 ?c] =>
        let v := eval vm_compute in (JS.radixDigit 10 c) in
        change (JS.radixDigit 10 c) with v
    end;
    cbv iota; rewrite parseDigits_uint_acc; reflexivity.
Qed.

Lemma parseInt_uint (d : Decimal.uint) :
  d <> Decimal.Nil ->
  JS.parseInt (NilEmpty.string_of_uint d)
  = match JS.parseDigits 10 (NilEmpty.string_of_uint d) None with
    | Some m => Some (1 * Z.of_N m)%Z
    | None => None
    end.
Proof.
  intros Hd. destruct d; [congruence | destruct d; reflexivity | ..];
    reflexivity.
Qed.

Lemma to_uint_nonnil (i : nat) : Nat.to_uint i <> Decimal.Nil.
Proof.
  intros E. pose proof (DecimalNat.Unsigned.of_to i) as H.
  rewrite E in H. cbn in H. subst i. discriminate E.
Qed.

Lemma parseInt_decimal (i : nat) : JS.parseInt (decimal i) = Some (Z.of_nat i).
Proof.
  unfold decimal.
  rewrite parseInt_uint by apply to_uint_nonnil.
  rewrite parseDigits_uint by apply to_uint_nonnil.
  rewrite DecimalNat.Unsigned.of_to, Z.mul_1_l. f_equal. lia.
Qed.

(** ** Case-insensitive comparison *)

Lemma all_ascii_complete (a : ascii) : In a all_ascii.
Proof.
  unfold all_ascii. rewrite <- (ascii_nat_embedding a).
  apply in_map, in_seq. pose proof (nat_ascii_bounded a). lia.
Qed.

Lemma same_letter_table :
  forallb (fun a => forallb (fun b =>
    Bool.eqb (same_letter a b)
             (Ascii.eqb (JS.toLowerCase_code a) (JS.toLowerCase_code b)))
    all_ascii) all_ascii = true.
Proof. vm_compute. reflexivity. Qed.

Lemma same_letter_lower (a b : ascii) :
  same_letter a b = Ascii.eqb (JS.toLowerCase_code a) (JS.toLowerCase_code b).
Proof.
  pose proof same_letter_table as T.
  rewrite forallb_forall in T. specialize (T a (all_ascii_complete a)).
  rewrite forallb_forall in T. specialize (T b (all_ascii_complete b)).
  now apply Bool.eqb_prop.
Qed.

(** Comparing the lowercase forms, as the code does, is equality up to
    letter case. *)
Lemma toLowerCase_eqb (a b : string) :
  String.eqb (JS.toLowerCase a) (JS.toLowerCase b) = eq_ignore_case a b.
Proof.
  revert b. induction a as [|x a IH]; intros [|y b]; cbn; try reflexivity.
  now rewrite IH, same_letter_lower.
Qed.

Lemma eq_ignore_case_refl (a : string) : eq_ignore_case a a = true.
Proof. rewrite <- toLowerCase_eqb. apply String.eqb_refl. Qed.

Lemma eq_ignore_case_sym (a b : string) :
  eq_ignore_case a b = eq_ignore_case b a.
Proof. rewrite <- !toLowerCase_eqb. apply String.eqb_sym. Qed.

(** ** Array.prototype.find *)

Lemma find_first_match {A : Type} (p : A -> bool) (l : list A) (x : A) :
  find p l = Some x <-> first_match p l x.
Proof.
  unfold first_match. split.
  - induction l as [|y l IH]; cbn; [discriminate|].
    destruct (p y) eqn:Hy.
    + intros [= ->]. exists [], l. repeat split; [exact Hy | intros ? []].
    + intros H. destruct (IH H) as (l1 & l2 & -> & Hx & Hl1).
      exists (y :: l1), l2. repeat split; [exact Hx|].
      intros z [<-|Hz]; [exact Hy | now apply Hl1].
  - intros (l1 & l2 & -> & Hx & Hl1).
    induction l1 as [|y l1 IH]; cbn.
    + now rewrite Hx.
    + rewrite (Hl1 y (or_introl eq_refl)). apply IH.
      intros z Hz. apply Hl1. now right.
Qed.

Lemma find_no_match {A : Type} (p : A -> bool) (l : list A) :
  find p l = None <-> no_match p l.
Proof.
  unfold no_match. split.
  - intros H y Hy. exact (find_none p l H y Hy).
  - intros H. induction l as [|y l IH]; cbn; [reflexivity|].
    rewrite (H y (or_introl eq_refl)). apply IH.
    intros z Hz. apply H. now right.
Qed.

Lemma first_match_ext {A : Type} (p q : A -> bool) (l : list A) (x : A) :
  (forall y, p y = q y) -> first_match p l x -> first_match q l x.
Proof.
  intros E (l1 & l2 & Hl & Hx & Hl1). exists l1, l2.
  repeat split; [exact Hl | now rewrite <- E |].
  intros y Hy. rewrite <- E. now apply Hl1.
Qed.

Lemma no_match_ext {A : Type} (p q : A -> bool) (l : list A) :
  (forall y, p y = q y) -> no_match p l -> no_match q l.
Proof. intros E H y Hy. rewrite <- E. now apply H. Qed.

(** ** C1: the field matcher *)

(** C1 (as stated, refuted): a request that differs from the schema name
    only in letter case is not matched.  The schema holds a field named
    "Status"; the request "status" equals it up to case and finds
    nothing. *)
Lemma C1_counterexample :
  eq_ignore_case "status" (Field.name status_field) = true /\
  In status_field example_schema /\
  find_field example_schema "status" = None.
Proof. split; [reflexivity | split; [left; reflexivity | reflexivity]]. Qed.

(** C1 (amended): the field matcher selects the first descriptor whose name
    is exactly the requested name, compared code unit by code unit, and
    returns not-found exactly when no descriptor has that name. *)
Theorem C1_find_field_exact (projectFields : list Field.t) (name : string) :
  (forall field,
     find_field projectFields name = Some field <->
     first_match (fun f => String.eqb (Field.name f) name) projectFields field) /\
  (find_field projectFields name = None <->
   forall f, In f projectFields -> Field.name f <> name).
Proof.
  unfold find_field. split.
  - intros field. rewrite find_first_match. split; apply first_match_ext;
      intros y; apply String.eqb_sym.
  - rewrite find_no_match. unfold no_match. split; intros H f Hf.
    + specialize (H f Hf). apply String.eqb_neq. now rewrite String.eqb_sym.
    + rewrite String.eqb_sym. apply String.eqb_neq. now apply H.
Qed.

Lemma C1_find_field_exact_witness :
  find_field example_schema "Iteration" = Some iteration_field /\
  find_field example_schema "iteration" = None.
Proof.
  destruct (C1_find_field_exact example_schema "Iteration") as [Hsome _].
  destruct (C1_find_field_exact example_schema "iteration") as [_ Hnone].
  split.
  - apply Hsome. exists [status_field], [text_field].
    repeat split. intros y [<-|[]]. reflexivity.
  - apply Hnone. intros f [<-|[<-|[<-|[]]]]; discriminate.
Defined.

(** ** The loop body and the loop *)

Section Loop.

Variable graphql : list Mutation.t -> Mutation.t -> Response.
Variable projectId itemId : string.
Variable projectFields : list Field.t.

Lemma update_item_not_found (name value : string) (w : Eff.World) :
  find_field projectFields name = None ->
  update_item graphql projectId itemId projectFields (name, value) w
  = (Eff.Normal tt,
     Eff.mkWorld (Eff.requests w) (Eff.info w ++ [FailedToFind name])
       (Eff.console w)).
Proof. intros H. unfold update_item. now rewrite H. Qed.

Lemma update_item_found (name value : string) (field : Field.t)
    (w : Eff.World) :
  find_field projectFields name = Some field ->
  let m := Mutation.mk projectId itemId (Field.id field) (_value field value) in
  update_item graphql projectId itemId projectFields (name, value) w
  = (Eff.Normal tt,
     Eff.mkWorld (Eff.requests w ++ [m])
       (Eff.info w ++
        [match graphql (Eff.requests w) m with
         | Resolves id => SuccessfullyUpdated name (_value field value) id
         | Rejects err => FailedToUpdate name (_value field value) err
         end])
       (Eff.console w)).
Proof.
  intros H m. unfold update_item. rewrite H.
  unfold Eff.try_catch, Eff.bind, projectFieldUpdate, Eff.core_info.
  fold m. destruct (graphql (Eff.requests w) m); reflexivity.
Qed.

(** The body never lets an exception out, and writes exactly one line. *)
Lemma update_item_outcome (entry : string * string) (w : Eff.World) :
  exists line requests',
    update_item graphql projectId itemId projectFields entry w
    = (Eff.Normal tt,
       Eff.mkWorld requests' (Eff.info w ++ [line]) (Eff.console w)) /\
    outcome_for projectFields entry line.
Proof.
  destruct entry as [name value]. unfold outcome_for. cbn [fst snd].
  destruct (find_field projectFields name) as [field|] eqn:Hf.
  - rewrite (update_item_found name value field w Hf).
    eexists _, _. split; [reflexivity|].
    destruct (graphql _ _); [left | right]; eexists; reflexivity.
  - rewrite (update_item_not_found name value w Hf).
    eexists _, _. split; reflexivity.
Qed.

Lemma for_of_outcomes (entries : list (string * string)) (w : Eff.World) :
  exists lines w',
    Eff.for_of entries
      (update_item graphql projectId itemId projectFields) w
    = (Eff.Normal tt, w') /\
    Eff.info w' = Eff.info w ++ lines /\
    Forall2 (outcome_for projectFields) entries lines.
Proof.
  revert w. induction entries as [|entry entries IH]; intros w.
  - exists [], w. cbn. rewrite app_nil_r. repeat split. constructor.
  - destruct (update_item_outcome entry w) as (line & rq & Hb & Ho).
    destruct (IH (Eff.mkWorld rq (Eff.info w ++ [line]) (Eff.console w)))
      as (lines & w' & Hl & Hi & HF).
    exists (line :: lines), w'. cbn [Eff.for_of]. unfold Eff.bind.
    rewrite Hb, Hl. repeat split.
    + rewrite Hi. cbn [Eff.info]. now rewrite <- app_assoc.
    + now constructor.
Qed.

Lemma for_of_app (before after : list (string * string)) (w : Eff.World) :
  exists w1,
    Eff.for_of before
      (update_item graphql projectId itemId projectFields) w
    = (Eff.Normal tt, w1) /\
    Eff.for_of (before ++ after)
      (update_item graphql projectId itemId projectFields) w
    = Eff.for_of after
        (update_item graphql projectId itemId projectFields) w1.
Proof.
  revert w. induction before as [|entry before IH]; intros w.
  - exists w. split; reflexivity.
  - destruct (update_item_outcome entry w) as (line & rq & Hb & _).
    destruct (IH (Eff.mkWorld rq (Eff.info w ++ [line]) (Eff.console w))) as (w1 & H1 & H2).
    exists w1. rewrite <- app_comm_cons. cbn [Eff.for_of].
    unfold Eff.bind. rewrite Hb. split; assumption.
Qed.

End Loop.

Lemma Forall2_outcome_names (projectFields : list Field.t)
    (entries : list (string * string)) (lines : list Line) :
  Forall2 (outcome_for projectFields) entries lines ->
  map Line_name lines = map fst entries.
Proof.
  induction 1 as [|entry line entries lines Ho _ IH]; [reflexivity|].
  cbn. rewrite IH. f_equal. unfold outcome_for in Ho.
  destruct (find_field projectFields (fst entry)).
  - destruct Ho as [[? ->]|[? ->]]; reflexivity.
  - now subst line.
Qed.

(** ** C3: one outcome per pair, in order, whatever fails *)

(** C3: for every update request the loop runs to its end without an
    exception, writes exactly one line per entry of the request, in the
    order of the entries and each about its own entry (field not found,
    updated, or update failed); and whatever happened to the entries before
    any point of the request, the entries after it are processed. *)
Theorem C3_one_outcome_per_pair
    (graphql : list Mutation.t -> Mutation.t -> Response)
    (projectId itemId : string) (projectFields : list Field.t)
    (fields : Obj.t) (w : Eff.World) :
  (exists lines w',
     update_project_items graphql projectId itemId projectFields
       (Some fields) w = (Eff.Normal tt, w') /\
     Eff.info w' = Eff.info w ++ lines /\
     List.length lines = List.length (Obj.entries fields) /\
     map Line_name lines = map fst (Obj.entries fields) /\
     Forall2 (outcome_for projectFields) (Obj.entries fields) lines) /\
  (forall before after,
     Obj.entries fields = before ++ after ->
     exists w1,
       Eff.for_of before
         (update_item graphql projectId itemId projectFields) w
       = (Eff.Normal tt, w1) /\
       update_project_items graphql projectId itemId projectFields
         (Some fields) w
       = Eff.for_of after
           (update_item graphql projectId itemId projectFields) w1).
Proof.
  split.
  - destruct (for_of_outcomes graphql projectId itemId projectFields
                (Obj.entries fields) w) as (lines & w' & Hr & Hi & HF).
    exists lines, w'. repeat split; try assumption.
    + symmetry. exact (Forall2_length HF).
    + exact (Forall2_outcome_names _ _ _ HF).
  - intros before after E. unfold update_project_items. rewrite E.
    apply for_of_app.
Qed.

Lemma C3_one_outcome_per_pair_witness :
  exists w1,
    Eff.for_of [("Unknown", "x"); ("Status", "todo")]
      (update_item reject_all "P" "IT" example_schema) empty_world
    = (Eff.Normal tt, w1) /\
    update_project_items reject_all "P" "IT" example_schema
      (Some [("Unknown", "x"); ("Status", "todo"); ("Notes", "hello")])
      empty_world
    = Eff.for_of [("Notes", "hello")]
        (update_item reject_all "P" "IT" example_schema) w1.
Proof.
  exact (proj2 (C3_one_outcome_per_pair reject_all "P" "IT" example_schema
                  [("Unknown", "x"); ("Status", "todo"); ("Notes", "hello")]
                  empty_world)
           [("Unknown", "x"); ("Status", "todo")] [("Notes", "hello")]
           eq_refl).
Defined.

(** ** Resolution of a value *)

Lemma _value_iteration (field : Field.t) (its completed : list Iteration.t)
    (value : string) :
  is_iteration_field field its completed ->
  _value field value
  = match iteration_of its completed value with
    | Some iteration => Iteration.id iteration
    | None => value
    end.
Proof. intros (s & Hs & Hi). unfold _value. now rewrite Hs, Hi. Qed.

Lemma _value_option (field : Field.t) (opts : list SelectOption.t)
    (value : string) :
  is_option_field field opts ->
  _value field value
  = match option_of opts value with
    | Some o => SelectOption.id o
    | None => value
    end.
Proof. intros (s & Hs & Hi & Ho). unfold _value. now rewrite Hs, Hi, Ho. Qed.

Lemma _value_scalar (field : Field.t) (value : string) :
  is_scalar_field field -> _value field value = value.
Proof.
  intros [Hs|(s & Hs & Hi & Ho)]; unfold _value.
  - now rewrite Hs.
  - now rewrite Hs, Hi, Ho.
Qed.

Lemma at_index_nat {A : Type} (arr : list A) (i : nat) :
  JS.at_index arr (Z.of_nat i) = nth_error arr i.
Proof.
  unfold JS.at_index. destruct (Z.ltb_spec (Z.of_nat i) 0); [lia|].
  now rewrite Nat2Z.id.
Qed.

Lemma at_index_Some {A : Type} (arr : list A) (index : Z) (x : A) :
  JS.at_index arr index = Some x ->
  exists i, index = Z.of_nat i /\ i < List.length arr.
Proof.
  unfold JS.at_index. destruct (Z.ltb_spec index 0); [discriminate|].
  intros E. exists (Z.to_nat index). split; [lia|].
  apply nth_error_Some. congruence.
Qed.

Lemma iteration_of_wrap (its completed : list Iteration.t) (inner : string) :
  iteration_of its completed (wrap inner)
  = match JS.parseInt inner with
    | Some index => JS.at_index its index
    | None => None
    end.
Proof.
  unfold iteration_of. now rewrite isBracketed_wrap, slice_wrap.
Qed.

Lemma option_of_wrap (opts : list SelectOption.t) (inner : string) :
  option_of opts (wrap inner)
  = match JS.parseInt inner with
    | Some index => JS.at_index opts index
    | None => None
    end.
Proof.
  unfold option_of. now rewrite isBracketed_wrap, slice_wrap.
Qed.

Lemma find_ext {A : Type} (p q : A -> bool) (l : list A) :
  (forall y, p y = q y) -> find p l = find q l.
Proof.
  intros E. induction l as [|y l IH]; cbn; [reflexivity|].
  now rewrite E, IH.
Qed.

Lemma iteration_of_title (its completed : list Iteration.t) (value : string) :
  isBracketed value = false ->
  iteration_of its completed value
  = or_else
      (find (fun i => eq_ignore_case (Iteration.title i) value) its)
      (find (fun i => eq_ignore_case (Iteration.title i) value) completed).
Proof.
  intros H. unfold iteration_of. rewrite H.
  f_equal; apply find_ext; intros y; apply toLowerCase_eqb.
Qed.

Lemma option_of_name (opts : list SelectOption.t) (value : string) :
  isBracketed value = false ->
  option_of opts value
  = find (fun o => eq_ignore_case (SelectOption.name o) value) opts.
Proof.
  intros H. unfold option_of. rewrite H.
  apply find_ext; intros y; apply toLowerCase_eqb.
Qed.

(** A bracket-shaped value that is not a valid index selects nothing. *)
Lemma bracketed_invalid_index {A : Type} (arr : list A) (value : string) :
  isBracketed value = true ->
  ~ valid_bracket_index arr value ->
  match JS.parseInt (JS.slice value 1 (-1)) with
  | Some index => JS.at_index arr index
  | None => None
  end = None.
Proof.
  intros Hb Hn. destruct (isBracketed_inv value Hb) as (inner & ->).
  rewrite slice_wrap.
  destruct (JS.parseInt inner) as [index|] eqn:Hp; [|reflexivity].
  destruct (JS.at_index arr index) as [x|] eqn:Hx; [|reflexivity].
  exfalso. apply Hn. destruct (at_index_Some arr index x Hx) as (i & -> & Hi).
  now exists inner, i.
Qed.

(** ** C2: an iteration value that resolves to nothing *)

(** C2 (as stated, refuted): "Sprint 6" is no bracket index and is the title
    of no iteration, active or completed, and yet one update mutation is
    sent for the pair, with the raw string as its value. *)
Lemma C2_counterexample :
  find_field example_schema "Iteration" = Some iteration_field /\
  is_iteration_field iteration_field
    [Iteration.mk "I9" "Sprint 5"] [Iteration.mk "I8" "Sprint 4"] /\
  isBracketed "Sprint 6" = false /\
  eq_ignore_case "Sprint 5" "Sprint 6" = false /\
  eq_ignore_case "Sprint 4" "Sprint 6" = false /\
  Eff.requests
    (snd (update_item accept_all "P" "IT" example_schema
            ("Iteration", "Sprint 6") empty_world))
  = [Mutation.mk "P" "IT" "F2" "Sprint 6"].
Proof.
  split; [reflexivity|]. split; [|repeat split; reflexivity].
  eexists. split; reflexivity.
Qed.

(** C2 (amended): for every iteration field and every raw value that is not
    a valid bracket index and that matches, case-insensitively, no title of
    the active and none of the completed iterations, resolution finds no
    iteration, the value is left as the raw string, and the update is still
    attempted: exactly one update mutation is sent for the pair, and its
    value is the raw string. *)
Theorem C2_unresolved_iteration_sends_raw
    (graphql : list Mutation.t -> Mutation.t -> Response)
    (projectId itemId : string) (projectFields : list Field.t)
    (name value : string) (field : Field.t)
    (its completed : list Iteration.t) (w : Eff.World) :
  find_field projectFields name = Some field ->
  is_iteration_field field its completed ->
  ~ valid_bracket_index its value ->
  no_match (fun i => eq_ignore_case (Iteration.title i) value) its ->
  no_match (fun i => eq_ignore_case (Iteration.title i) value) completed ->
  iteration_of its completed value = None /\
  _value field value = value /\
  Eff.requests
    (snd (update_item graphql projectId itemId projectFields (name, value) w))
  = Eff.requests w ++ [Mutation.mk projectId itemId (Field.id field) value].
Proof.
  intros Hf Hi Hv Ha Hc.
  assert (Hnone : iteration_of its completed value = None).
  { destruct (isBracketed value) eqn:Hb.
    - unfold iteration_of. rewrite Hb.
      now apply bracketed_invalid_index.
    - rewrite (iteration_of_title _ _ _ Hb).
      apply find_no_match in Ha, Hc. now rewrite Ha, Hc. }
  assert (Hval : _value field value = value).
  { now rewrite (_value_iteration _ _ _ _ Hi), Hnone. }
  repeat split; [exact Hnone | exact Hval |].
  rewrite (update_item_found graphql projectId itemId projectFields
             name value field w Hf).
  cbn [snd Eff.requests]. now rewrite Hval.
Qed.

Lemma C2_unresolved_iteration_sends_raw_witness :
  iteration_of [Iteration.mk "I9" "Sprint 5"] [Iteration.mk "I8" "Sprint 4"]
    "[7]" = None /\
  _value iteration_field "[7]" = "[7]" /\
  Eff.requests
    (snd (update_item reject_all "P" "IT" example_schema
            ("Iteration", "[7]") empty_world))
  = Eff.requests empty_world ++ [Mutation.mk "P" "IT" "F2" "[7]"].
Proof.
  apply (C2_unresolved_iteration_sends_raw reject_all "P" "IT" example_schema
           "Iteration" "[7]" iteration_field).
  - reflexivity.
  - eexists. split; reflexivity.
  - intros (inner & i & Hw & Hp & Hi).
    injection Hw as Hw. destruct inner as [|c [|d inner]]; try discriminate.
    + injection Hw as <-. change (JS.parseInt "7") with (Some 7%Z) in Hp.
      injection Hp as Hp. cbn [List.length] in Hi. lia.
    + cbn in Hw. injection Hw as _ Hw. destruct inner; discriminate.
  - intros y [<-|[]]. reflexivity.
  - intros y [<-|[]]. reflexivity.
Defined.

(** ** C4: bracket indices *)

(** C4: for every iteration field and every option field, the value [[i]]
    resolves to the id of the element at position [i] of the field's own
    list, [iterations] (never [completed_iterations]) or [options], when
    there is one, and to nothing when [i] is past the end of that list;
    more generally a bracketed numeral that reads as a negative number or
    as one past the end resolves to nothing. *)
Theorem C4_bracket_index (i : nat) :
  (forall field its completed,
     is_iteration_field field its completed ->
     (forall x, nth_error its i = Some x ->
        iteration_of its completed (bracket_index i) = Some x /\
        _value field (bracket_index i) = Iteration.id x) /\
     (List.length its <= i ->
        iteration_of its completed (bracket_index i) = None /\
        _value field (bracket_index i) = bracket_index i)) /\
  (forall field opts,
     is_option_field field opts ->
     (forall x, nth_error opts i = Some x ->
        option_of opts (bracket_index i) = Some x /\
        _value field (bracket_index i) = SelectOption.id x) /\
     (List.length opts <= i ->
        option_of opts (bracket_index i) = None /\
        _value field (bracket_index i) = bracket_index i)) /\
  (forall inner index,
     JS.parseInt inner = Some index ->
     (forall its completed,
        (index < 0 \/ Z.of_nat (List.length its) <= index)%Z ->
        iteration_of its completed (wrap inner) = None) /\
     (forall opts,
        (index < 0 \/ Z.of_nat (List.length opts) <= index)%Z ->
        option_of opts (wrap inner) = None)).
Proof.
  split; [|split].
  - intros field its completed Hi.
    assert (E : iteration_of its completed (bracket_index i) = nth_error its i).
    { unfold bracket_index.
      now rewrite iteration_of_wrap, parseInt_decimal, at_index_nat. }
    rewrite (_value_iteration _ _ _ _ Hi), E. split.
    + intros x Hx. rewrite Hx. now split.
    + intros Hl. apply nth_error_None in Hl. rewrite Hl. now split.
  - intros field opts Ho.
    assert (E : option_of opts (bracket_index i) = nth_error opts i).
    { unfold bracket_index.
      now rewrite option_of_wrap, parseInt_decimal, at_index_nat. }
    rewrite (_value_option _ _ _ Ho), E. split.
    + intros x Hx. rewrite Hx. now split.
    + intros Hl. apply nth_error_None in Hl. rewrite Hl. now split.
  - intros inner index Hp.
    assert (Hout : forall (A : Type) (arr : list A),
               (index < 0 \/ Z.of_nat (List.length arr) <= index)%Z ->
               JS.at_index arr index = None).
    { intros A arr Hr. unfold JS.at_index.
      destruct (Z.ltb_spec index 0); [reflexivity|].
      apply nth_error_None. lia. }
    split.
    + intros its completed Hr. rewrite iteration_of_wrap, Hp. now apply Hout.
    + intros opts Hr. rewrite option_of_wrap, Hp. now apply Hout.
Qed.

Lemma C4_bracket_index_witness :
  (iteration_of [Iteration.mk "I9" "Sprint 5"] [Iteration.mk "I8" "Sprint 4"]
     (bracket_index 0) = Some (Iteration.mk "I9" "Sprint 5") /\
   _value iteration_field (bracket_index 0) = "I9") /\
  (iteration_of [Iteration.mk "I9" "Sprint 5"] [Iteration.mk "I8" "Sprint 4"]
     (bracket_index 1) = None /\
   _value iteration_field (bracket_index 1) = bracket_index 1) /\
  (option_of [SelectOption.mk "O1" "Todo"; SelectOption.mk "O2" "Done"]
     (bracket_index 1) = Some (SelectOption.mk "O2" "Done") /\
   _value status_field (bracket_index 1) = "O2") /\
  option_of [SelectOption.mk "O1" "Todo"; SelectOption.mk "O2" "Done"]
    (wrap "-1") = None.
Proof.
  assert (Hi : is_iteration_field iteration_field
                 [Iteration.mk "I9" "Sprint 5"] [Iteration.mk "I8" "Sprint 4"])
    by (eexists; split; reflexivity).
  assert (Ho : is_option_field status_field
                 [SelectOption.mk "O1" "Todo"; SelectOption.mk "O2" "Done"])
    by (eexists; repeat split; reflexivity).
  split; [|split; [|split]].
  - exact (proj1 (proj1 (C4_bracket_index 0) _ _ _ Hi) _ eq_refl).
  - apply (proj2 (proj1 (C4_bracket_index 1) _ _ _ Hi)). cbn. lia.
  - exact (proj1 (proj1 (proj2 (C4_bracket_index 1)) _ _ Ho) _ eq_refl).
  - apply (proj2 (proj2 (proj2 (C4_bracket_index 0)) "-1" (-1)%Z eq_refl)).
    left. lia.
Defined.

(** ** C5: options by name *)

(** C5: for every option field and every raw value that is not
    bracket-shaped, the value resolves to the id of the first option whose
    name equals it up to letter case; when no option's name does,
    resolution finds nothing. *)
Theorem C5_option_by_name (field : Field.t) (opts : list SelectOption.t)
    (value : string) :
  is_option_field field opts ->
  isBracketed value = false ->
  (forall o,
     first_match (fun o => eq_ignore_case (SelectOption.name o) value) opts o ->
     option_of opts value = Some o /\
     _value field value = SelectOption.id o) /\
  (no_match (fun o => eq_ignore_case (SelectOption.name o) value) opts ->
   option_of opts value = None /\ _value field value = value).
Proof.
  intros Ho Hb. rewrite (_value_option _ _ _ Ho), (option_of_name _ _ Hb).
  split.
  - intros o Hm. apply find_first_match in Hm. rewrite Hm. now split.
  - intros Hn. apply find_no_match in Hn. rewrite Hn. now split.
Qed.

Lemma C5_option_by_name_witness :
  (option_of [SelectOption.mk "O1" "Todo"; SelectOption.mk "O2" "Done"]
     "DONE" = Some (SelectOption.mk "O2" "Done") /\
   _value status_field "DONE" = "O2") /\
  (option_of [SelectOption.mk "O1" "Todo"; SelectOption.mk "O2" "Done"]
     "Doing" = None /\
   _value status_field "Doing" = "Doing").
Proof.
  assert (Ho : is_option_field status_field
                 [SelectOption.mk "O1" "Todo"; SelectOption.mk "O2" "Done"])
    by (eexists; repeat split; reflexivity).
  split.
  - apply (proj1 (C5_option_by_name status_field _ "DONE" Ho eq_refl)).
    exists [SelectOption.mk "O1" "Todo"], []. repeat split.
    intros y [<-|[]]. reflexivity.
  - apply (proj2 (C5_option_by_name status_field _ "Doing" Ho eq_refl)).
    intros y [<-|[<-|[]]]; reflexivity.
Defined.

(** ** C6: iterations by title *)

(** C6: for every iteration field and every raw value that is not
    bracket-shaped, a value whose case-insensitive match fails among the
    active iterations and succeeds among the completed ones resolves to the
    id of the first matching completed iteration; and the active list goes
    first: a value that matches an active iteration resolves to the first
    such, whatever the completed list holds. *)
Theorem C6_completed_iteration_fallback (field : Field.t)
    (its completed : list Iteration.t) (value : string) :
  is_iteration_field field its completed ->
  isBracketed value = false ->
  (forall c,
     no_match (fun i => eq_ignore_case (Iteration.title i) value) its ->
     first_match (fun i => eq_ignore_case (Iteration.title i) value) completed c ->
     iteration_of its completed value = Some c /\
     _value field value = Iteration.id c) /\
  (forall a,
     first_match (fun i => eq_ignore_case (Iteration.title i) value) its a ->
     iteration_of its completed value = Some a /\
     _value field value = Iteration.id a).
Proof.
  intros Hi Hb. rewrite (_value_iteration _ _ _ _ Hi), (iteration_of_title _ _ _ Hb).
  split.
  - intros c Hn Hm. apply find_no_match in Hn. apply find_first_match in Hm.
    rewrite Hn, Hm. now split.
  - intros a Hm. apply find_first_match in Hm. rewrite Hm. now split.
Qed.

Lemma C6_completed_iteration_fallback_witness :
  iteration_of [Iteration.mk "I9" "Sprint 5"] [Iteration.mk "I8" "Sprint 4"]
    "sprint 4" = Some (Iteration.mk "I8" "Sprint 4") /\
  _value iteration_field "sprint 4" = "I8".
Proof.
  apply (proj1 (C6_completed_iteration_fallback iteration_field
                  [Iteration.mk "I9" "Sprint 5"] [Iteration.mk "I8" "Sprint 4"]
                  "sprint 4"
                  (ex_intro _ _ (conj eq_refl eq_refl)) eq_refl)).
  - intros y [<-|[]]. reflexivity.
  - exists [], []. repeat split. intros y [].
Defined.

(** ** C7: plain fields *)

(** C7: for every field without iteration and without option settings and
    every raw value [v], the resolved value is [v] itself, nothing in it
    checked or changed, and that is the value of the mutation sent. *)
Theorem C7_scalar_identity (field : Field.t) (v : string) :
  is_scalar_field field ->
  _value field v = v /\
  forall graphql projectId itemId projectFields name w,
    find_field projectFields name = Some field ->
    Eff.requests
      (snd (update_item graphql projectId itemId projectFields (name, v) w))
    = Eff.requests w ++ [Mutation.mk projectId itemId (Field.id field) v].
Proof.
  intros Hs. pose proof (_value_scalar field v Hs) as E. split; [exact E|].
  intros graphql projectId itemId projectFields name w Hf.
  rewrite (update_item_found graphql projectId itemId projectFields
             name v field w Hf).
  cbn [snd Eff.requests]. now rewrite E.
Qed.

Lemma C7_scalar_identity_witness :
  _value text_field "not-a-date" = "not-a-date" /\
  _value (Field.mk "F4" "Estimate" (Some (Settings.mk None None))) "1e3" = "1e3".
Proof.
  split.
  - apply (C7_scalar_identity text_field "not-a-date"). now left.
  - apply (C7_scalar_identity
             (Field.mk "F4" "Estimate" (Some (Settings.mk None None))) "1e3").
    right. eexists. repeat split; reflexivity.
Defined.

(** ** C9: a bracket-shaped value is only ever an index *)

(** C9: for a raw value that starts with [[] and ends with []], what an
    iteration or option field resolves it to does not depend on any title
    or name: two lists with the same ids at the same positions give the
    same result.  When the text between the brackets does not read as an
    integer nothing is found, even if a title or name equals the raw value,
    and the raw value is what stays. *)
Theorem C9_bracketed_is_index_only (value : string) :
  isBracketed value = true ->
  (forall its its' completed completed',
     map Iteration.id its = map Iteration.id its' ->
     option_map Iteration.id (iteration_of its completed value)
     = option_map Iteration.id (iteration_of its' completed' value)) /\
  (forall opts opts',
     map SelectOption.id opts = map SelectOption.id opts' ->
     option_map SelectOption.id (option_of opts value)
     = option_map SelectOption.id (option_of opts' value)) /\
  (JS.parseInt (JS.slice value 1 (-1)) = None ->
   (forall its completed, iteration_of its completed value = None) /\
   (forall opts, option_of opts value = None) /\
   (forall field, _value field value = value)).
Proof.
  intros Hb.
  assert (Hidx : forall (A : Type) (id : A -> string) (l l' : list A) index,
             map id l = map id l' ->
             option_map id (JS.at_index l index)
             = option_map id (JS.at_index l' index)).
  { intros A id l l' index E. unfold JS.at_index.
    destruct (index <? 0)%Z; [reflexivity|].
    rewrite <- !nth_error_map. now rewrite E. }
  split; [|split].
  - intros its its' completed completed' E. unfold iteration_of. rewrite Hb.
    destruct (JS.parseInt _); [now apply Hidx | reflexivity].
  - intros opts opts' E. unfold option_of. rewrite Hb.
    destruct (JS.parseInt _); [now apply Hidx | reflexivity].
  - intros Hp.
    assert (H1 : forall its completed, iteration_of its completed value = None)
      by (intros; unfold iteration_of; now rewrite Hb, Hp).
    assert (H2 : forall opts, option_of opts value = None)
      by (intros; unfold option_of; now rewrite Hb, Hp).
    repeat split; [exact H1 | exact H2 |].
    intros field. unfold _value.
    destruct (Field.settings field) as [s|]; [|reflexivity].
    destruct (iterations_of_settings s) as [[its completed]|].
    + now rewrite H1.
    + destruct (Settings.options s); [now rewrite H2 | reflexivity].
Qed.

Lemma C9_bracketed_is_index_only_witness :
  option_of [SelectOption.mk "O1" "[next]"; SelectOption.mk "O2" "Done"]
    "[next]" = None /\
  _value (Field.mk "F1" "Status"
            (Some (Settings.mk None
                     (Some [SelectOption.mk "O1" "[next]";
                            SelectOption.mk "O2" "Done"])))) "[next]"
  = "[next]".
Proof.
  destruct (C9_bracketed_is_index_only "[next]" eq_refl) as (_ & _ & H).
  destruct (H eq_refl) as (_ & Ho & Hv). split; [apply Ho | apply Hv].
Defined.

(** ** The object as a map *)

Lemma get_put_same (obj : Obj.t) (k v : string) :
  Obj.get (Obj.put obj k v) k = Some v.
Proof.
  induction obj as [|[k' v'] obj IH]; cbn.
  - now rewrite String.eqb_refl.
  - destruct (String.eqb k' k) eqn:E; cbn; now rewrite E.
Qed.

Lemma get_put_other (obj : Obj.t) (k k' v : string) :
  k <> k' -> Obj.get (Obj.put obj k v) k' = Obj.get obj k'.
Proof.
  intros Hk. induction obj as [|[k0 v0] obj IH]; cbn.
  - apply String.eqb_neq in Hk. now rewrite Hk.
  - destruct (String.eqb k0 k) eqn:E; cbn.
    + apply String.eqb_eq in E. subst k0.
      apply String.eqb_neq in Hk. now rewrite Hk.
    + now rewrite IH.
Qed.

Lemma keys_put_old (obj : Obj.t) (k v : string) :
  In k (Obj.keys obj) -> Obj.keys (Obj.put obj k v) = Obj.keys obj.
Proof.
  induction obj as [|[k' v'] obj IH]; cbn; [intros []|].
  destruct (String.eqb_spec k' k) as [->|Hn]; cbn; [reflexivity|].
  intros [E|H]; [contradiction|]. f_equal. now apply IH.
Qed.

Lemma keys_put_new (obj : Obj.t) (k v : string) :
  ~ In k (Obj.keys obj) -> Obj.keys (Obj.put obj k v) = Obj.keys obj ++ [k].
Proof.
  induction obj as [|[k' v'] obj IH]; cbn; [reflexivity|].
  intros H. destruct (String.eqb_spec k' k) as [->|Hn]; cbn.
  - exfalso. apply H. now left.
  - f_equal. apply IH. intros Hin. apply H. now right.
Qed.

Lemma In_keys_put (obj : Obj.t) (k v f : string) :
  In f (Obj.keys (Obj.put obj k v)) <-> f = k \/ In f (Obj.keys obj).
Proof.
  destruct (in_dec string_dec k (Obj.keys obj)) as [Hin|Hout].
  - rewrite keys_put_old by assumption. split; [now right|].
    intros [->|H]; assumption.
  - rewrite keys_put_new by assumption. rewrite in_app_iff. cbn.
    split; [intros [H|[<-|[]]]; auto | intros [->|H]; auto].
Qed.

Lemma NoDup_keys_put (obj : Obj.t) (k v : string) :
  NoDup (Obj.keys obj) -> NoDup (Obj.keys (Obj.put obj k v)).
Proof.
  intros H. destruct (in_dec string_dec k (Obj.keys obj)) as [Hin|Hout].
  - now rewrite keys_put_old.
  - rewrite keys_put_new by assumption.
    apply NoDup_app; [assumption | repeat constructor; intros [] |].
    intros x Hx [<-|[]]. contradiction.
Qed.

Lemma get_Some_In (obj : Obj.t) (k v : string) :
  Obj.get obj k = Some v -> In (k, v) obj.
Proof.
  induction obj as [|[k' v'] obj IH]; cbn; [discriminate|].
  destruct (String.eqb_spec k' k) as [->|Hn].
  - intros [= ->]. now left.
  - intros H. right. now apply IH.
Qed.

Lemma In_get (obj : Obj.t) (k v : string) :
  NoDup (Obj.keys obj) -> In (k, v) obj <-> Obj.get obj k = Some v.
Proof.
  intros Hnd. split; [|apply get_Some_In].
  induction obj as [|[k' v'] obj IH]; cbn; [intros []|].
  unfold Obj.keys in Hnd. cbn in Hnd. inversion Hnd as [|? ? Hk Hnd']; subst.
  intros [[= -> ->]|H].
  - now rewrite String.eqb_refl.
  - destruct (String.eqb_spec k' k) as [->|Hn]; [|now apply IH].
    exfalso. apply Hk. change k with (fst (k, v)). now apply in_map.
Qed.

Lemma get_app (a b : Obj.t) (k : string) :
  Obj.get (a ++ b) k = or_else (Obj.get a k) (Obj.get b k).
Proof.
  induction a as [|[k' v'] a IH]; cbn; [reflexivity|].
  destruct (String.eqb k' k); [reflexivity | exact IH].
Qed.

Lemma get_first_pair (l : Obj.t) (f v : string) :
  Obj.get l f = Some v <->
  exists l1 l2, l = l1 ++ (f, v) :: l2 /\ ~ In f (map fst l1).
Proof.
  split.
  - induction l as [|[k' v'] l IH]; cbn; [discriminate|].
    destruct (String.eqb_spec k' f) as [->|Hn].
    + intros [= ->]. exists [], l. split; [reflexivity | intros []].
    + intros H. destruct (IH H) as (l1 & l2 & -> & Hl1).
      exists ((k', v') :: l1), l2. split; [reflexivity|].
      cbn. intros [E|Hin]; [contradiction | now apply Hl1].
  - intros (l1 & l2 & -> & Hl1). induction l1 as [|[k' v'] l1 IH]; cbn.
    + now rewrite String.eqb_refl.
    + cbn in Hl1. destruct (String.eqb_spec k' f) as [->|Hn].
      * exfalso. apply Hl1. now left.
      * apply IH. intros Hin. apply Hl1. now right.
Qed.

Lemma get_rev_last_pair (pairs : list (string * string)) (f v : string) :
  Obj.get (rev pairs) f = Some v <-> last_pair pairs f v.
Proof.
  rewrite get_first_pair. unfold last_pair. split.
  - intros (l1 & l2 & E & Hl1). exists (rev l2), (rev l1). split.
    + rewrite <- (rev_involutive pairs), E, rev_app_distr. cbn.
      now rewrite <- app_assoc.
    + rewrite map_rev, <- in_rev. exact Hl1.
  - intros (l1 & l2 & -> & Hl2). exists (rev l2), (rev l1). split.
    + rewrite rev_app_distr. cbn. now rewrite <- app_assoc.
    + rewrite map_rev, <- in_rev. exact Hl2.
Qed.

(** ** Objects written pair by pair *)

Lemma get_of_pairs (pairs : list (string * string)) (acc : Obj.t) (f : string) :
  Obj.get (of_pairs pairs acc) f
  = or_else (Obj.get (rev pairs) f) (Obj.get acc f).
Proof.
  revert acc. induction pairs as [|[k v] pairs IH]; intros acc; cbn.
  - reflexivity.
  - unfold of_pairs in IH. rewrite IH, get_app. cbn.
    destruct (Obj.get (rev pairs) f); [reflexivity|]. cbn.
    destruct (String.eqb_spec k f) as [->|Hn].
    + apply get_put_same.
    + now apply get_put_other.
Qed.

Lemma In_keys_of_pairs (pairs : list (string * string)) (acc : Obj.t)
    (f : string) :
  In f (Obj.keys (of_pairs pairs acc)) <->
  In f (map fst pairs) \/ In f (Obj.keys acc).
Proof.
  revert acc. induction pairs as [|[k v] pairs IH]; intros acc; cbn.
  - tauto.
  - unfold of_pairs in IH. rewrite IH, In_keys_put. cbn.
    split; [intros [H|[->|H]] | intros [[->|H]|H]]; auto.
Qed.

Lemma NoDup_keys_of_pairs (pairs : list (string * string)) (acc : Obj.t) :
  NoDup (Obj.keys acc) -> NoDup (Obj.keys (of_pairs pairs acc)).
Proof.
  revert acc. induction pairs as [|[k v] pairs IH]; intros acc H; cbn.
  - exact H.
  - apply IH. now apply NoDup_keys_put.
Qed.

Lemma length_of_pairs (pairs : list (string * string)) :
  List.length (of_pairs pairs []) = distinct_names pairs.
Proof.
  unfold distinct_names.
  rewrite <- (length_map fst (of_pairs pairs [])).
  change (map fst (of_pairs pairs [])) with (Obj.keys (of_pairs pairs [])).
  assert (N1 : NoDup (Obj.keys (of_pairs pairs [])))
    by (apply NoDup_keys_of_pairs; constructor).
  assert (N2 : NoDup (nodup string_dec (map fst pairs))) by apply NoDup_nodup.
  apply Nat.le_antisymm; apply NoDup_incl_length; try assumption.
  - intros f Hf. apply nodup_In. apply In_keys_of_pairs in Hf.
    destruct Hf as [Hf|[]]. exact Hf.
  - intros f Hf. apply nodup_In in Hf. apply In_keys_of_pairs. now left.
Qed.

(** ** Object.entries *)

Lemma insert_by_index_perm (p : N * (string * string))
    (l : list (N * (string * string))) :
  Permutation (Obj.insert_by_index p l) (p :: l).
Proof.
  induction l as [|q l IH]; cbn; [reflexivity|].
  destruct (N.leb (fst p) (fst q)); [reflexivity|].
  rewrite IH. apply perm_swap.
Qed.

Lemma sort_by_index_perm (l : list (N * (string * string))) :
  Permutation (Obj.sort_by_index l) l.
Proof.
  induction l as [|p l IH]; cbn; [reflexivity|].
  rewrite insert_by_index_perm. now apply perm_skip.
Qed.

(** The entries are the own properties, in another order. *)
Lemma entries_perm (obj : Obj.t) : Permutation (Obj.entries obj) obj.
Proof.
  unfold Obj.entries.
  rewrite (Permutation_map snd (sort_by_index_perm (Obj.indexed obj))).
  induction obj as [|p obj IH]; cbn; [reflexivity|].
  destruct (Obj.array_index (fst p)); cbn.
  - now apply perm_skip.
  - symmetry. apply Permutation_cons_app. now symmetry.
Qed.

Lemma In_entries (obj : Obj.t) (p : string * string) :
  In p (Obj.entries obj) <-> In p obj.
Proof.
  split; apply Permutation_in; [apply entries_perm | symmetry; apply entries_perm].
Qed.

Lemma length_entries (obj : Obj.t) :
  List.length (Obj.entries obj) = List.length obj.
Proof. apply Permutation_length, entries_perm. Qed.


Example entries_ex1 :
  getInputs_fields "b,1,__proto__,a,0" "x,y,p,z,w"
  = Some [("b", "x"); ("1", "y"); ("a", "z"); ("0", "w")] /\
  Obj.entries [("b", "x"); ("1", "y"); ("a", "z"); ("0", "w")]
  = [("0", "w"); ("1", "y"); ("b", "x"); ("a", "z")].
Proof. split; reflexivity. Qed.

(** ** getInputs *)

Lemma skipn_nth_Some {A : Type} (l : list A) (i : nat) (x : A) :
  nth_error l i = Some x -> skipn i l = x :: skipn (S i) l.
Proof.
  revert l. induction i as [|i IH]; intros [|y l]; cbn; try discriminate.
  - now intros [= ->].
  - intros H. now rewrite (IH l H).
Qed.

Lemma skipn_nth_None {A : Type} (l : list A) (i : nat) :
  nth_error l i = None -> skipn i l = [] /\ skipn (S i) l = [].
Proof.
  intros H. apply nth_error_None in H.
  split; apply skipn_all2; lia.
Qed.

Lemma retained_nil (names : list string) : retained names [] = [].
Proof. now destruct names. Qed.

(** The reduction over the names, started at position [i], writes the
    retained pairs of the names and of the values from [i] on. *)
Lemma reduce_from_retained (values names : list string) (i : nat) (acc : Obj.t) :
  JS.reduce_from (getInputs_reducer values) names i acc
  = of_pairs (retained names (skipn i values)) acc.
Proof.
  revert i acc. induction names as [|f names IH]; intros i acc.
  - reflexivity.
  - cbn [JS.reduce_from]. rewrite IH. unfold getInputs_reducer.
    destruct (nth_error values i) as [v|] eqn:Hv.
    + rewrite (skipn_nth_Some _ _ _ Hv). cbn [retained]. unfold Obj.set.
      destruct (JS.truthy (Some v)); [|reflexivity].
      destruct (String.eqb f "__proto__"); reflexivity.
    + destruct (skipn_nth_None _ _ Hv) as [-> ->].
      now rewrite retained_nil.
Qed.

Lemma getInputs_fields_retained (fieldNames fieldsValue : string) (obj : Obj.t) :
  getInputs_fields fieldNames fieldsValue = Some obj ->
  obj = of_pairs (retained (JS.split "," fieldNames) (JS.split "," fieldsValue)) [].
Proof.
  unfold getInputs_fields. destruct (String.eqb fieldNames ""); [discriminate|].
  intros [= <-]. unfold JS.reduce. now rewrite reduce_from_retained.
Qed.

Lemma truthy_nonempty (v : string) : JS.truthy (Some v) = true <-> v <> "".
Proof. destruct v; cbn; split; congruence. Qed.

Lemma kept_iff (f v : string) :
  (JS.truthy (Some v) && negb (String.eqb f "__proto__"))%bool = true <->
  v <> "" /\ f <> "__proto__".
Proof.
  rewrite andb_true_iff, truthy_nonempty, negb_true_iff, String.eqb_neq.
  reflexivity.
Qed.

Lemma In_retained (names values : list string) (f v : string) :
  In (f, v) (retained names values) <->
  exists i, nth_error names i = Some f /\ nth_error values i = Some v /\
            v <> "" /\ f <> "__proto__".
Proof.
  revert values. induction names as [|f0 names IH]; intros values.
  - cbn. split; [intros [] | intros ([|i] & H & _); discriminate].
  - destruct values as [|v0 values].
    + cbn. split; [intros [] | intros ([|i] & _ & H & _); discriminate].
    + cbn [retained].
      assert (Hrec : In (f, v) (retained names values) <->
                     exists i, nth_error (f0 :: names) (S i) = Some f /\
                               nth_error (v0 :: values) (S i) = Some v /\
                               v <> "" /\ f <> "__proto__")
        by apply IH.
      destruct (JS.truthy (Some v0) && negb (String.eqb f0 "__proto__"))%bool
        eqn:Ht.
      * apply kept_iff in Ht. cbn [In]. rewrite Hrec. split.
        -- intros [[= -> ->]|(i & H)].
           ++ exists 0. now repeat split.
           ++ now exists (S i).
        -- intros ([|i] & Hf & Hv & Hne).
           ++ left. cbn in Hf, Hv. congruence.
           ++ right. now exists i.
      * rewrite Hrec. split.
        -- intros (i & H). now exists (S i).
        -- intros ([|i] & Hf & Hv & Hne).
           ++ cbn in Hf, Hv. injection Hf as ->. injection Hv as ->.
              apply kept_iff in Hne. congruence.
           ++ now exists i.
Qed.

Lemma last_pair_In (pairs : list (string * string)) (f v : string) :
  last_pair pairs f v -> In (f, v) pairs.
Proof. intros (l1 & l2 & -> & _). apply in_app_iff. right. now left. Qed.


(** What [getInputs] leaves in [ret.fields]. *)
Lemma getInputs_fields_spec (fieldNames fieldsValue : string) (obj : Obj.t) :
  getInputs_fields fieldNames fieldsValue = Some obj ->
  let pairs := retained (JS.split "," fieldNames) (JS.split "," fieldsValue) in
  NoDup (Obj.keys obj) /\
  (forall f v, In (f, v) (Obj.entries obj) <-> last_pair pairs f v) /\
  (forall f, In f (Obj.keys obj) <-> In f (map fst pairs)) /\
  List.length (Obj.entries obj) = distinct_names pairs.
Proof.
  intros H pairs. apply getInputs_fields_retained in H. fold pairs in H.
  subst obj.
  assert (Hnd : NoDup (Obj.keys (of_pairs pairs [])))
    by (apply NoDup_keys_of_pairs; constructor).
  repeat split; try assumption.
  - intros Hin. apply In_entries, (In_get _ _ _ Hnd) in Hin.
    rewrite get_of_pairs in Hin. apply get_rev_last_pair.
    destruct (Obj.get (List.rev pairs) f); [exact Hin | discriminate].
  - intros Hl. apply In_entries, (In_get _ _ _ Hnd). rewrite get_of_pairs.
    apply get_rev_last_pair in Hl. now rewrite Hl.
  - intros Hin. apply In_keys_of_pairs in Hin. now destruct Hin as [?|[]].
  - intros Hin. apply In_keys_of_pairs. now left.
  - rewrite length_entries. apply length_of_pairs.
Qed.

(** ** C8: a name given more than once *)




(** ** C10: which pairs reach the request *)









(** * Further properties of the code *)

(** ** getInputs: errors and the login *)

(** X1: [getInputs] throws in three cases only.  It throws
    "No input 'projectNumber'" when [parseInt] reads no number in the
    project-number input, whatever the other inputs are.  When a number was
    read and the organization input is empty, it reads
    github.context.repo.owner, and what that getter throws, it throws.  And
    it throws "Missing input 'organization' or 'user'" when a number was
    read, the organization input is empty, the getter gave an empty owner
    and the user input is empty.  An error of [getInputs] is always one of
    these three; with an organization input it can only be the first. *)
Theorem X1_getInputs_errors (env : InputEnv.t) :
  (JS.parseInt (InputEnv.project_number env) = None ->
   getInputs env = Eff.Throw "No input 'projectNumber'") /\
  (forall e,
     JS.parseInt (InputEnv.project_number env) <> None ->
     InputEnv.organization env = "" ->
     InputEnv.repo_error env = Some e ->
     getInputs env = Eff.Throw e) /\
  (JS.parseInt (InputEnv.project_number env) <> None ->
   InputEnv.organization env = "" ->
   InputEnv.repo_error env = None ->
   InputEnv.repo_owner env = "" ->
   InputEnv.user env = "" ->
   getInputs env = Eff.Throw "Missing input 'organization' or 'user'") /\
  (forall e, getInputs env = Eff.Throw e ->
     (JS.parseInt (InputEnv.project_number env) = None /\
      e = "No input 'projectNumber'") \/
     (JS.parseInt (InputEnv.project_number env) <> None /\
      InputEnv.organization env = "" /\
      InputEnv.repo_error env = Some e) \/
     (JS.parseInt (InputEnv.project_number env) <> None /\
      InputEnv.organization env = "" /\
      InputEnv.repo_error env = None /\
      InputEnv.repo_owner env = "" /\
      InputEnv.user env = "" /\
      e = "Missing input 'organization' or 'user'")).
Proof.
  unfold getInputs, context_repo_owner.
  destruct (JS.parseInt (InputEnv.project_number env)) as [n|].
  - split; [congruence|]. split; [|split].
    + intros e _ -> ->. reflexivity.
    + intros _ -> -> -> ->. reflexivity.
    + destruct (InputEnv.organization env) as [|c o]; cbn;
        [|discriminate].
      destruct (InputEnv.repo_error env) as [e'|].
      * intros e [= <-]. right. left. repeat split. discriminate.
      * destruct (InputEnv.repo_owner env) as [|c' r]; cbn; [|discriminate].
        destruct (InputEnv.user env) as [|c'' u]; cbn; [|discriminate].
        intros e [= <-]. right. right. repeat split. discriminate.
  - split; [reflexivity|]. split; [|split]; try congruence.
    intros e [= <-]. left. split; reflexivity.
Qed.

(** X2: when [getInputs] returns, the login is not empty, and it is the
    organization input when that is given, otherwise the repository owner
    when there is one, and the user input only when both are empty; the
    project number is the integer [parseInt] read. *)
Theorem X2_getInputs_login (env : InputEnv.t) (inputs : Input.t) :
  getInputs env = Eff.Normal inputs ->
  Input.login inputs <> "" /\
  JS.parseInt (InputEnv.project_number env) = Some (Input.projectNumber inputs) /\
  (InputEnv.organization env <> "" ->
   Input.login inputs = InputEnv.organization env) /\
  (InputEnv.organization env = "" -> InputEnv.repo_owner env <> "" ->
   Input.login inputs = InputEnv.repo_owner env) /\
  (InputEnv.organization env = "" -> InputEnv.repo_owner env = "" ->
   Input.login inputs = InputEnv.user env).
Proof.
  unfold getInputs, context_repo_owner.
  destruct (JS.parseInt (InputEnv.project_number env)) as [n|]; [|discriminate].
  destruct (InputEnv.organization env) as [|c o];
    destruct (InputEnv.repo_error env) as [e|];
    destruct (InputEnv.repo_owner env) as [|c' r];
    destruct (InputEnv.user env) as [|c'' u]; cbn;
    try discriminate; intros [= <-]; cbn;
    repeat split; try discriminate; try congruence.
Qed.

Lemma X2_getInputs_login_witness :
  Input.login
    (Input.mk "t" 5 "I" "acme" "acme" "octocat" (Some [("Status", "todo")]))
  = "acme".
Proof.
  refine (proj1 (proj2 (proj2 (proj2
            (X2_getInputs_login
               (InputEnv.mk "t" "5" "I" "" "octocat" "Status" "todo" "acme" None)
               _ eq_refl)))) eq_refl _).
  discriminate.
Defined.

Lemma X1_getInputs_errors_witness :
  getInputs (InputEnv.mk "t" "five" "I" "acme" "" "Status" "todo" "acme" None)
  = Eff.Throw "No input 'projectNumber'" /\
  getInputs (InputEnv.mk "t" "5" "I" "" "u" "Status" "todo" "" (Some "no repo"))
  = Eff.Throw "no repo" /\
  getInputs (InputEnv.mk "t" "5" "I" "" "" "Status" "todo" "" None)
  = Eff.Throw "Missing input 'organization' or 'user'".
Proof.
  split; [|split].
  - apply (proj1 (X1_getInputs_errors
                    (InputEnv.mk "t" "five" "I" "acme" "" "Status" "todo" "acme"
                       None))).
    reflexivity.
  - apply (proj1 (proj2 (X1_getInputs_errors
                           (InputEnv.mk "t" "5" "I" "" "u" "Status" "todo" ""
                              (Some "no repo"))))); try reflexivity.
    discriminate.
  - apply (proj1 (proj2 (proj2 (X1_getInputs_errors
                                  (InputEnv.mk "t" "5" "I" "" "" "Status" "todo"
                                     "" None))))); try reflexivity.
    discriminate.
Defined.

(** ** projectGet after getInputs *)

Lemma getInputs_owner (env : InputEnv.t) (inputs : Input.t) :
  getInputs env = Eff.Normal inputs ->
  Input.user inputs = InputEnv.user env /\
  Input.organization inputs
  = string_or (InputEnv.organization env) (InputEnv.repo_owner env) /\
  (nonempty (Input.user inputs) = false ->
   nonempty (Input.organization inputs) = true).
Proof.
  unfold getInputs, context_repo_owner.
  destruct (JS.parseInt (InputEnv.project_number env)) as [n|]; [|discriminate].
  destruct (InputEnv.organization env) as [|c o];
    destruct (InputEnv.repo_error env) as [e|];
    destruct (InputEnv.repo_owner env) as [|c' r];
    destruct (InputEnv.user env) as [|c'' u]; cbn;
    try discriminate; intros [= <-]; cbn;
    repeat split; try discriminate; try congruence.
Qed.

(** X3: with the inputs [getInputs] returned, [projectGet] sends exactly one
    query and never reports a missing owner: the project is looked up under
    the user whenever the user input is given, and under the organization
    (the organization input, else the repository owner) otherwise.  So with
    a user input and an organization input both given, the lookup is under
    the user while the login is the organization. *)
Theorem X3_projectGet_owner
    (graphql_project : ProjectQuery -> ProjectResponse)
    (env : InputEnv.t) (inputs : Input.t) (s : Proc.State) :
  getInputs env = Eff.Normal inputs ->
  let owner :=
    if nonempty (InputEnv.user env) then OfUser (InputEnv.user env)
    else OfOrganization
           (string_or (InputEnv.organization env) (InputEnv.repo_owner env)) in
  let query := Some (owner, Input.projectNumber inputs) in
  projectGet graphql_project (Input.projectNumber inputs)
    (Input.organization inputs) (Input.user inputs) s
  = (match graphql_project query with
     | ProjectResolves p => Eff.Normal p
     | ProjectRejects err => Eff.Throw err
     end,
     Proc.mkState (Proc.world s) (Proc.queries s ++ [query])
       (Proc.fetches s) (Proc.outputs s)) /\
  (InputEnv.user env <> "" -> InputEnv.organization env <> "" ->
   owner = OfUser (InputEnv.user env) /\
   Input.login inputs = InputEnv.organization env).
Proof.
  intros H owner query.
  destruct (getInputs_owner env inputs H) as (Hu & Ho & Hne).
  split.
  - unfold projectGet, query, owner. rewrite Hu in *. rewrite Ho in *.
    destruct (nonempty (InputEnv.user env)).
    + destruct (graphql_project _); reflexivity.
    + rewrite (Hne eq_refl). destruct (graphql_project _); reflexivity.
  - intros Hun Hon. split.
    + unfold owner. destruct (InputEnv.user env); [congruence | reflexivity].
    + unfold getInputs in H.
      destruct (JS.parseInt (InputEnv.project_number env)); [|discriminate].
      destruct (InputEnv.organization env); [congruence|].
      cbn in H. now injection H as <-.
Qed.

Lemma X3_projectGet_owner_witness :
  projectGet no_project 5 "acme" "octocat" initial_state
  = (Eff.Normal None,
     Proc.mkState empty_world [Some (OfUser "octocat", 5%Z)] [] []) /\
  (OfUser "octocat" = OfUser "octocat" /\ "acme" = "acme").
Proof.
  destruct (X3_projectGet_owner no_project
              (InputEnv.mk "t" "5" "I" "acme" "octocat" "" "" "owner" None)
              _ initial_state eq_refl) as [Hq Hl].
  split; [exact Hq | apply Hl; discriminate].
Defined.

(** ** getInputs: what the request can hold *)

Lemma comma_free_snoc (s : string) (c : ascii) :
  comma_free s = true -> Ascii.eqb c "," = false ->
  comma_free (s ++ String c "")%string = true.
Proof.
  intros Hs Hc. induction s as [|x s IH]; cbn in *.
  - now rewrite Hc.
  - apply andb_true_iff in Hs. destruct Hs as [Hx Hs].
    rewrite Hx. now apply IH.
Qed.

Lemma split_go_comma_free (s cur : string) :
  comma_free cur = true ->
  forall x, In x (JS.split_go "," s cur) -> comma_free x = true.
Proof.
  revert cur. induction s as [|c s IH]; intros cur Hcur x; cbn.
  - intros [<-|[]]. exact Hcur.
  - destruct (Ascii.eqb c ",") eqn:Hc.
    + intros [<-|Hx]; [exact Hcur | now apply (IH "")].
    + apply IH. now apply comma_free_snoc.
Qed.

Lemma split_go_length (s cur : string) :
  List.length (JS.split_go "," s cur) = S (commas s).
Proof.
  revert cur. induction s as [|c s IH]; intros cur; cbn; [reflexivity|].
  destruct (Ascii.eqb c ","); cbn; now rewrite IH.
Qed.

Lemma length_nodup_le (l : list string) :
  List.length (nodup string_dec l) <= List.length l.
Proof.
  induction l as [|x l IH]; cbn; [lia|].
  destruct (in_dec string_dec x l); cbn; lia.
Qed.

Lemma length_retained (names values : list string) :
  List.length (retained names values) <= List.length names /\
  List.length (retained names values)
  <= List.length (filter (fun v => JS.truthy (Some v)) values).
Proof.
  revert values. induction names as [|f names IH]; intros [|v values];
    cbn [retained List.length filter]; try lia.
  destruct (IH values) as [H1 H2].
  destruct (JS.truthy (Some v)); destruct (String.eqb f "__proto__");
    cbn [andb negb List.length]; lia.
Qed.

(** X4: no entry of the request has an empty value, and neither a name nor
    a value of the request contains a comma; so a field whose name contains
    a comma cannot be addressed, and a value cannot be set to the empty
    string. *)
Theorem X4_request_entries_wellformed
    (fieldNames fieldsValue : string) (obj : Obj.t) :
  getInputs_fields fieldNames fieldsValue = Some obj ->
  forall f v, In (f, v) (Obj.entries obj) ->
    v <> "" /\ comma_free f = true /\ comma_free v = true.
Proof.
  intros H f v Hin.
  destruct (getInputs_fields_spec _ _ _ H) as (_ & Hlast & _).
  apply Hlast, last_pair_In, In_retained in Hin.
  destruct Hin as (i & Hf & Hv & Hne & _).
  repeat split; [exact Hne | |].
  - apply (split_go_comma_free fieldNames "" eq_refl).
    exact (nth_error_In _ _ Hf).
  - apply (split_go_comma_free fieldsValue "" eq_refl).
    exact (nth_error_In _ _ Hv).
Qed.

Lemma X4_request_entries_wellformed_witness :
  "back-end" <> "" /\ comma_free "product" = true /\ comma_free "back-end" = true.
Proof.
  apply (X4_request_entries_wellformed "product,priority" "back-end,high"
           [("product", "back-end"); ("priority", "high")] eq_refl).
  now left.
Defined.

(** X5: the request never has more entries than there are names (one more
    than the commas of the names input) nor more than there are non-empty
    values; in particular an empty values input gives an empty request,
    whatever the names. *)
Theorem X5_request_size (fieldNames fieldsValue : string) (obj : Obj.t) :
  getInputs_fields fieldNames fieldsValue = Some obj ->
  List.length (Obj.entries obj) <= S (commas fieldNames) /\
  List.length (Obj.entries obj)
  <= List.length (filter nonempty (JS.split "," fieldsValue)) /\
  (fieldsValue = "" -> Obj.entries obj = []).
Proof.
  intros H.
  destruct (getInputs_fields_spec _ _ _ H) as (_ & _ & _ & Hlen).
  pose proof (length_nodup_le
                (map fst (retained (JS.split "," fieldNames)
                            (JS.split "," fieldsValue)))) as Hnd.
  rewrite length_map in Hnd.
  destruct (length_retained (JS.split "," fieldNames)
              (JS.split "," fieldsValue)) as [H1 H2].
  unfold distinct_names in Hlen.
  assert (Hn : List.length (JS.split "," fieldNames) = S (commas fieldNames))
    by apply split_go_length.
  rewrite Hn in H1.
  assert (E : forall l, filter (fun v => JS.truthy (Some v)) l = filter nonempty l).
  { intros l. apply filter_ext. now intros [|c v]. }
  rewrite E in H2.
  repeat split; [lia | lia |].
  intros ->. cbn in H2.
  destruct (Obj.entries obj); [reflexivity | cbn in *; lia].
Qed.

Lemma X5_request_size_witness :
  Obj.entries ([] : Obj.t) = [].
Proof.
  apply (X5_request_size "Status,Notes" "" [] eq_refl). reflexivity.
Defined.

(** ** getInputs: the longer list's tail *)

Lemma split_go_app (a b cur : string) :
  JS.split_go "," (a ++ String "," b)%string cur
  = JS.split_go "," a cur ++ JS.split "," b.
Proof.
  revert cur. induction a as [|c a IH]; intros cur; cbn.
  - reflexivity.
  - destruct (Ascii.eqb c ","); cbn; now rewrite IH.
Qed.

Lemma retained_surplus_values (names va vb : list string) :
  List.length names <= List.length va ->
  retained names (va ++ vb) = retained names va.
Proof.
  revert va. induction names as [|f names IH]; intros [|v va] H; cbn in *;
    try reflexivity; try lia.
  rewrite IH by lia. reflexivity.
Qed.

Lemma retained_surplus_names (na nb values : list string) :
  List.length values <= List.length na ->
  retained (na ++ nb) values = retained na values.
Proof.
  revert values. induction na as [|f na IH]; intros [|v values] H; cbn in *;
    try reflexivity; try lia.
  - now destruct nb.
  - rewrite IH by lia. reflexivity.
Qed.

Lemma getInputs_fields_nonempty (fieldNames fieldsValue : string) :
  fieldNames <> "" ->
  getInputs_fields fieldNames fieldsValue
  = Some (of_pairs (retained (JS.split "," fieldNames)
                      (JS.split "," fieldsValue)) []).
Proof.
  intros Hn. unfold getInputs_fields.
  apply String.eqb_neq in Hn. rewrite Hn.
  unfold JS.reduce. now rewrite reduce_from_retained.
Qed.

(** X6: what one input has beyond the positions of the other is ignored.
    Values after the last name change nothing; and, when there are names at
    all, names after the last value are dropped, so that the request is the
    one of the names that have a position in the values. *)
Theorem X6_surplus_positions_ignored (fieldNames fieldsValue extra : string) :
  (commas fieldNames <= commas fieldsValue ->
   getInputs_fields fieldNames (fieldsValue ++ String "," extra)
   = getInputs_fields fieldNames fieldsValue) /\
  (fieldNames <> "" ->
   commas fieldsValue <= commas fieldNames ->
   getInputs_fields (fieldNames ++ String "," extra) fieldsValue
   = getInputs_fields fieldNames fieldsValue).
Proof.
  assert (Ln : List.length (JS.split "," fieldNames) = S (commas fieldNames))
    by apply split_go_length.
  assert (Lv : List.length (JS.split "," fieldsValue) = S (commas fieldsValue))
    by apply split_go_length.
  split.
  - intros Hc. destruct (String.eqb_spec fieldNames "") as [->|Hn];
      [reflexivity|].
    rewrite !getInputs_fields_nonempty by assumption.
    unfold JS.split at 2. rewrite split_go_app.
    fold (JS.split "," fieldsValue).
    rewrite retained_surplus_values by lia. reflexivity.
  - intros Hn Hc.
    rewrite (getInputs_fields_nonempty fieldNames) by assumption.
    rewrite getInputs_fields_nonempty by (destruct fieldNames; discriminate).
    unfold JS.split at 1. rewrite split_go_app.
    fold (JS.split "," fieldNames).
    rewrite retained_surplus_names by lia. reflexivity.
Qed.

Lemma X6_surplus_positions_ignored_witness :
  getInputs_fields "Status,Notes" ("todo,n" ++ String "," "x,y")
  = getInputs_fields "Status,Notes" "todo,n" /\
  getInputs_fields ("Status" ++ String "," "Notes,Other") "todo"
  = getInputs_fields "Status" "todo".
Proof.
  split.
  - apply (proj1 (X6_surplus_positions_ignored "Status,Notes" "todo,n" "x,y")).
    cbn. lia.
  - apply (proj2 (X6_surplus_positions_ignored "Status" "todo" "Notes,Other"));
      [discriminate | cbn; lia].
Defined.

(** ** The loop: what is sent *)

Lemma for_of_requests
    (graphql : list Mutation.t -> Mutation.t -> Response)
    (projectId itemId : string) (projectFields : list Field.t)
    (entries : list (string * string)) (w : Eff.World) :
  Eff.requests
    (snd (Eff.for_of entries
            (update_item graphql projectId itemId projectFields) w))
  = Eff.requests w
    ++ filter_map (mutation_for projectId itemId projectFields) entries.
Proof.
  revert w. induction entries as [|[name value] entries IH]; intros w.
  - cbn. now rewrite app_nil_r.
  - cbn [Eff.for_of filter_map]. unfold Eff.bind, mutation_for at 1.
    cbn [fst snd].
    destruct (find_field projectFields name) as [field|] eqn:Hf.
    + rewrite (update_item_found graphql projectId itemId projectFields
                 name value field w Hf).
      rewrite IH. cbn [Eff.requests]. now rewrite <- app_assoc.
    + rewrite (update_item_not_found graphql projectId itemId projectFields
                 name value w Hf).
      now rewrite IH.
Qed.

Lemma filter_map_In {A B : Type} (f : A -> option B) (l : list A) (y : B) :
  In y (filter_map f l) <-> exists x, In x l /\ f x = Some y.
Proof.
  induction l as [|x l IH]; cbn.
  - split; [intros [] | intros (? & [] & _)].
  - destruct (f x) as [z|] eqn:Hx; cbn; rewrite IH; split.
    + intros [E|(x' & Hin & Hf)].
      * exists x. split; [now left | congruence].
      * exists x'. split; [now right | exact Hf].
    + intros (x' & [E|Hin] & Hf).
      * left. congruence.
      * right. exists x'. now split.
    + intros (x' & Hin & Hf). exists x'. split; [now right | exact Hf].
    + intros (x' & [E|Hin] & Hf).
      * congruence.
      * exists x'. now split.
Qed.

(** X7: the mutations the loop sends do not depend on what the server
    answers: in the order of the entries, one mutation for each entry whose
    name is the name of a field, none for the others, and none twice.
    Every one of them is for the project and the item of the run, names the
    id of the field found, and carries the resolved value. *)
Theorem X7_mutations_sent
    (graphql : list Mutation.t -> Mutation.t -> Response)
    (projectId itemId : string) (projectFields : list Field.t)
    (fields : Obj.t) (w : Eff.World) :
  let sent := filter_map (mutation_for projectId itemId projectFields)
                (Obj.entries fields) in
  Eff.requests
    (snd (update_project_items graphql projectId itemId projectFields
            (Some fields) w))
  = Eff.requests w ++ sent /\
  List.length sent
  = List.length
      (filter (fun e => match find_field projectFields (fst e) with
                        | Some _ => true
                        | None => false
                        end)
         (Obj.entries fields)) /\
  (forall m, In m sent ->
     Mutation.projectId m = projectId /\ Mutation.itemId m = itemId /\
     exists field name value,
       In (name, value) (Obj.entries fields) /\
       find_field projectFields name = Some field /\
       Mutation.fieldId m = Field.id field /\
       Mutation.value m = _value field value).
Proof.
  intros sent. split; [apply for_of_requests | split].
  - unfold sent, mutation_for.
    induction (Obj.entries fields) as [|e l IH]; cbn; [reflexivity|].
    destruct (find_field projectFields (fst e)); cbn; now rewrite IH.
  - intros m Hm. apply filter_map_In in Hm.
    destruct Hm as ([name value] & Hin & Hm). unfold mutation_for in Hm.
    cbn [fst snd] in Hm.
    destruct (find_field projectFields name) as [field|] eqn:Hf; [|discriminate].
    injection Hm as <-. cbn. repeat split.
    exists field, name, value. auto.
Qed.

Lemma X7_mutations_sent_witness :
  Mutation.projectId (Mutation.mk "P" "IT" "F1" "O1") = "P" /\
  Mutation.itemId (Mutation.mk "P" "IT" "F1" "O1") = "IT" /\
  exists field name value,
    In (name, value) (Obj.entries [("Unknown", "x"); ("Status", "todo")]) /\
    find_field example_schema name = Some field /\
    Mutation.fieldId (Mutation.mk "P" "IT" "F1" "O1") = Field.id field /\
    Mutation.value (Mutation.mk "P" "IT" "F1" "O1") = _value field value.
Proof.
  apply (proj2 (proj2 (X7_mutations_sent reject_all "P" "IT" example_schema
                         [("Unknown", "x"); ("Status", "todo")] empty_world))).
  now left.
Defined.

(** ** Resolution: what a value can become *)

Lemma at_index_In {A : Type} (arr : list A) (index : Z) (x : A) :
  JS.at_index arr index = Some x -> In x arr.
Proof.
  unfold JS.at_index. destruct (index <? 0)%Z; [discriminate|].
  apply nth_error_In.
Qed.

Lemma iteration_of_In (its completed : list Iteration.t) (value : string)
    (x : Iteration.t) :
  iteration_of its completed value = Some x -> In x (its ++ completed).
Proof.
  unfold iteration_of. rewrite in_app_iff.
  destruct (isBracketed value).
  - destruct (JS.parseInt _); [|discriminate].
    intros H. left. exact (at_index_In _ _ _ H).
  - destruct (find _ its) eqn:Ha; cbn.
    + intros [= <-]. left. exact (proj1 (find_some _ _ Ha)).
    + intros Hc. right. exact (proj1 (find_some _ _ Hc)).
Qed.

Lemma option_of_In (opts : list SelectOption.t) (value : string)
    (x : SelectOption.t) :
  option_of opts value = Some x -> In x opts.
Proof.
  unfold option_of. destruct (isBracketed value).
  - destruct (JS.parseInt _); [|discriminate]. apply at_index_In.
  - intros H. exact (proj1 (find_some _ _ H)).
Qed.

(** X8: the value the loop sends for a field is always either the raw value
    or one of the ids the field's own settings offer (of an iteration,
    active or completed, or of an option): resolution never makes up a
    value, and an id of another field is never sent. *)
Theorem X8_value_raw_or_offered_id (field : Field.t) (value : string) :
  _value field value = value \/ In (_value field value) (offered_ids field).
Proof.
  unfold _value, offered_ids.
  destruct (Field.settings field) as [s|]; [|now left].
  destruct (iterations_of_settings s) as [[its completed]|].
  - destruct (iteration_of its completed value) as [x|] eqn:Hx; [|now left].
    right. apply in_map. exact (iteration_of_In _ _ _ _ Hx).
  - destruct (Settings.options s) as [opts|]; [|now left].
    destruct (option_of opts value) as [x|] eqn:Hx; [|now left].
    right. apply in_map. exact (option_of_In _ _ _ Hx).
Qed.

(** ** Resolution: numerals that go on *)

Lemma radixDigit_not_digit (c : ascii) :
  isDigit c = false -> JS.radixDigit 10 c = None.
Proof.
  destruct c as [[] [] [] [] [] [] [] []]; intros H;
    first [discriminate H | reflexivity].
Qed.

Lemma parseDigits_stop (rest : string) (acc : option N) :
  ends_numeral rest = true -> JS.parseDigits 10 rest acc = acc.
Proof.
  destruct rest as [|c rest]; [reflexivity|]. cbn [ends_numeral JS.parseDigits].
  intros H. apply andb_true_iff in H. destruct H as [H _].
  apply andb_true_iff in H. destruct H as [H _].
  apply negb_true_iff in H. now rewrite (radixDigit_not_digit c H).
Qed.

Lemma parseDigits_uint_acc_rest (d : Decimal.uint) (rest : string) (a : N) :
  ends_numeral rest = true ->
  JS.parseDigits 10 (NilEmpty.string_of_uint d ++ rest)%string (Some a)
  = Some (N.of_nat (Nat.of_uint_acc d (N.to_nat a))).
Proof.
  intros Hr. revert a.
  induction d; intros a; cbn [NilEmpty.string_of_uint append JS.parseDigits];
    [ rewrite (parseDigits_stop rest _ Hr); cbn [Nat.of_uint_acc];
      now rewrite N2Nat.id | .. ];
    match goal with
    | |- context [JS.radixDigit 10 ?c] =>
        let v := eval vm_compute in (JS.radixDigit 10 c) in
        change (JS.radixDigit 10 c) with v
    end;
    cbv iota; rewrite IHd; cbn [Nat.of_uint_acc];
    rewrite Nat.tail_mul_spec; do 3 f_equal; lia.
Qed.

Lemma parseDigits_uint_rest (d : Decimal.uint) (rest : string) :
  d <> Decimal.Nil -> ends_numeral rest = true ->
  JS.parseDigits 10 (NilEmpty.string_of_uint d ++ rest)%string None
  = Some (N.of_nat (Nat.of_uint d)).
Proof.
  intros Hd Hr. unfold Nat.of_uint.
  destruct d; [congruence | ..];
    cbn [NilEmpty.string_of_uint append JS.parseDigits];
    match goal with
    | |- context [JS.radixDigit 10 ?c] =>
        let v := eval vm_compute in (JS.radixDigit 10 c) in
        change (JS.radixDigit 10 c) with v
    end;
    cbv iota; rewrite (parseDigits_uint_acc_rest _ _ _ Hr); reflexivity.
Qed.

Lemma stripPrefix_zero_rest (rest : string) :
  ends_numeral rest = true ->
  JS.stripPrefix (String "0" rest) = (10%N, String "0" rest).
Proof.
  destruct rest as [|c rest]; [reflexivity|].
  destruct c as [[] [] [] [] [] [] [] []]; intros H;
    first [discriminate H | reflexivity].
Qed.

Lemma parseInt_uint_rest (d : Decimal.uint) (rest : string) :
  d <> Decimal.Nil -> ends_numeral rest = true ->
  JS.parseInt (NilEmpty.string_of_uint d ++ rest)%string
  = match JS.parseDigits 10 (NilEmpty.string_of_uint d ++ rest)%string None with
    | Some m => Some (1 * Z.of_N m)%Z
    | None => None
    end.
Proof.
  intros Hd Hr. destruct d; [congruence | | reflexivity ..].
  unfold JS.parseInt. cbn [NilEmpty.string_of_uint append].
  change (JS.trimStart (String "0" ?s)) with (String "0" s).
  cbn [JS.stripSign].
  destruct d.
  - cbn [NilEmpty.string_of_uint append].
    now rewrite (stripPrefix_zero_rest rest Hr).
  - reflexivity.
  - reflexivity.
  - reflexivity.
  - reflexivity.
  - reflexivity.
  - reflexivity.
  - reflexivity.
  - reflexivity.
  - reflexivity.
  - reflexivity.
Qed.

Lemma parseInt_decimal_rest (i : nat) (rest : string) :
  ends_numeral rest = true ->
  JS.parseInt (decimal i ++ rest)%string = Some (Z.of_nat i).
Proof.
  intros Hr. unfold decimal.
  rewrite parseInt_uint_rest by (try apply to_uint_nonnil; assumption).
  rewrite parseDigits_uint_rest by (try apply to_uint_nonnil; assumption).
  rewrite DecimalNat.Unsigned.of_to, Z.mul_1_l. f_equal. lia.
Qed.

(** X9: between the brackets only the leading decimal numeral counts.  When
    the numeral of [i] is followed by a text that starts with neither a
    digit nor [x], as in [[1st]], [[2.5]] or [[0 ]], the value still
    selects the element at position [i] of the iterations or options. *)
Theorem X9_index_ignores_trailing_text (i : nat) (rest : string) :
  ends_numeral rest = true ->
  (forall its completed,
     iteration_of its completed (wrap (decimal i ++ rest)) = nth_error its i) /\
  (forall opts,
     option_of opts (wrap (decimal i ++ rest)) = nth_error opts i).
Proof.
  intros Hr. split; intros.
  - now rewrite iteration_of_wrap, parseInt_decimal_rest, at_index_nat.
  - now rewrite option_of_wrap, parseInt_decimal_rest, at_index_nat.
Qed.

Lemma X9_index_ignores_trailing_text_witness :
  option_of [SelectOption.mk "O1" "Todo"; SelectOption.mk "O2" "Done"]
    (wrap (decimal 1 ++ "st"))
  = Some (SelectOption.mk "O2" "Done").
Proof.
  exact (proj2 (X9_index_ignores_trailing_text 1 "st" eq_refl) _).
Defined.

(** ** Resolution: the letter case of the raw value *)

Lemma lower_code_facts (c : ascii) :
  JS.toLowerCase_code (JS.toLowerCase_code c) = JS.toLowerCase_code c /\
  JS.isWhiteSpace (JS.toLowerCase_code c) = JS.isWhiteSpace c /\
  JS.digitValue (JS.toLowerCase_code c) = JS.digitValue c /\
  Ascii.eqb (JS.toLowerCase_code c) "[" = Ascii.eqb c "[" /\
  Ascii.eqb (JS.toLowerCase_code c) "]" = Ascii.eqb c "]".
Proof.
  destruct c as [[] [] [] [] [] [] [] []]; repeat split; reflexivity.
Qed.

Lemma toLowerCase_idem (s : string) :
  JS.toLowerCase (JS.toLowerCase s) = JS.toLowerCase s.
Proof.
  induction s as [|c s IH]; cbn; [reflexivity|].
  now rewrite IH, (proj1 (lower_code_facts c)).
Qed.

Lemma toLowerCase_length (s : string) :
  String.length (JS.toLowerCase s) = String.length s.
Proof. induction s as [|c s IH]; cbn; congruence. Qed.

Lemma substring_lower (n m : nat) (s : string) :
  String.substring n m (JS.toLowerCase s)
  = JS.toLowerCase (String.substring n m s).
Proof.
  revert n m. induction s as [|c s IH]; intros n m.
  - destruct n, m; reflexivity.
  - destruct n as [|n].
    + destruct m as [|m]; cbn; [reflexivity | now rewrite IH].
    + cbn. apply IH.
Qed.

Lemma slice_lower (s : string) (a b : Z) :
  JS.slice (JS.toLowerCase s) a b = JS.toLowerCase (JS.slice s a b).
Proof.
  unfold JS.slice. rewrite toLowerCase_length. apply substring_lower.
Qed.

Lemma eqb_lower_single (t : string) (k : ascii) :
  (forall c, Ascii.eqb (JS.toLowerCase_code c) k = Ascii.eqb c k) ->
  String.eqb (JS.toLowerCase t) (String k "") = String.eqb t (String k "").
Proof.
  intros Hk. destruct t as [|c t]; [reflexivity|]. cbn.
  rewrite Hk. destruct (Ascii.eqb c k); [|reflexivity].
  destruct t; reflexivity.
Qed.

Lemma prefix_single (k : ascii) (t : string) :
  String.prefix (String k "") t
  = match t with
    | EmptyString => false
    | String c _ => Ascii.eqb c k
    end.
Proof.
  destruct t as [|c t]; [reflexivity|]. cbn.
  destruct (Ascii.ascii_dec k c) as [<-|E].
  - rewrite Ascii.eqb_refl. now destruct t.
  - symmetry. apply Ascii.eqb_neq. congruence.
Qed.

Lemma isBracketed_lower (s : string) :
  isBracketed (JS.toLowerCase s) = isBracketed s.
Proof.
  unfold isBracketed, JS.startsWith, JS.endsWith. f_equal.
  - rewrite !prefix_single. destruct s as [|c s]; [reflexivity|]. cbn.
    apply lower_code_facts.
  - rewrite toLowerCase_length. destruct (Nat.leb _ _); [|reflexivity].
    rewrite substring_lower. apply eqb_lower_single.
    intros c. apply lower_code_facts.
Qed.

Lemma trimStart_lower (s : string) :
  JS.trimStart (JS.toLowerCase s) = JS.toLowerCase (JS.trimStart s).
Proof.
  induction s as [|c s IH]; cbn; [reflexivity|].
  rewrite (proj1 (proj2 (lower_code_facts c))).
  destruct (JS.isWhiteSpace c); [exact IH | reflexivity].
Qed.

Lemma stripSign_lower (s : string) :
  JS.stripSign (JS.toLowerCase s)
  = (fst (JS.stripSign s), JS.toLowerCase (snd (JS.stripSign s))).
Proof.
  destruct s as [|c s]; [reflexivity|].
  destruct c as [[] [] [] [] [] [] [] []]; reflexivity.
Qed.

Lemma stripPrefix_lower (s : string) :
  JS.stripPrefix (JS.toLowerCase s)
  = (fst (JS.stripPrefix s), JS.toLowerCase (snd (JS.stripPrefix s))).
Proof.
  destruct s as [|a [|b r]]; [reflexivity | |].
  - destruct a as [[] [] [] [] [] [] [] []]; reflexivity.
  - destruct a as [[] [] [] [] [] [] [] []]; try reflexivity.
    destruct b as [[] [] [] [] [] [] [] []]; reflexivity.
Qed.

Lemma parseDigits_lower (R : N) (s : string) (acc : option N) :
  JS.parseDigits R (JS.toLowerCase s) acc = JS.parseDigits R s acc.
Proof.
  revert acc. induction s as [|c s IH]; intros acc; cbn; [reflexivity|].
  unfold JS.radixDigit.
  rewrite (proj1 (proj2 (proj2 (lower_code_facts c)))).
  destruct (JS.digitValue c) as [d|]; [|reflexivity].
  destruct (N.ltb d R); [apply IH | reflexivity].
Qed.

Lemma parseInt_lower (s : string) :
  JS.parseInt (JS.toLowerCase s) = JS.parseInt s.
Proof.
  unfold JS.parseInt. rewrite trimStart_lower, stripSign_lower.
  destruct (JS.stripSign (JS.trimStart s)) as [sign s1]. cbn [fst snd].
  rewrite stripPrefix_lower.
  destruct (JS.stripPrefix s1) as [R s2]. cbn [fst snd].
  now rewrite parseDigits_lower.
Qed.

Lemma iteration_of_lower (its completed : list Iteration.t) (value : string) :
  iteration_of its completed (JS.toLowerCase value)
  = iteration_of its completed value.
Proof.
  unfold iteration_of.
  now rewrite isBracketed_lower, slice_lower, parseInt_lower, toLowerCase_idem.
Qed.

Lemma option_of_lower (opts : list SelectOption.t) (value : string) :
  option_of opts (JS.toLowerCase value) = option_of opts value.
Proof.
  unfold option_of.
  now rewrite isBracketed_lower, slice_lower, parseInt_lower, toLowerCase_idem.
Qed.

(** X10: what a value selects does not depend on the case of its letters,
    whether it is a name or a bracket index (where letters can only be
    hexadecimal digits or text after the numeral): two raw values that are
    equal up to letter case select the same iteration and the same option,
    so they resolve to the same id whenever one of them resolves. *)
Theorem X10_value_case_irrelevant (v v' : string) :
  eq_ignore_case v v' = true ->
  (forall its completed,
     iteration_of its completed v = iteration_of its completed v') /\
  (forall opts, option_of opts v = option_of opts v') /\
  (forall field,
     _value field v <> v -> _value field v' = _value field v).
Proof.
  intros H. rewrite <- toLowerCase_eqb in H. apply String.eqb_eq in H.
  assert (Hi : forall its completed,
             iteration_of its completed v = iteration_of its completed v').
  { intros. rewrite <- (iteration_of_lower _ _ v), H. apply iteration_of_lower. }
  assert (Ho : forall opts, option_of opts v = option_of opts v').
  { intros. rewrite <- (option_of_lower _ v), H. apply option_of_lower. }
  repeat split; try assumption.
  intros field. unfold _value.
  destruct (Field.settings field) as [s|]; [|congruence].
  destruct (iterations_of_settings s) as [[its completed]|].
  - rewrite <- Hi. destruct (iteration_of its completed v); congruence.
  - destruct (Settings.options s) as [opts|]; [|congruence].
    rewrite <- Ho. destruct (option_of opts v); congruence.
Qed.

Lemma X10_value_case_irrelevant_witness :
  _value status_field "DONE" = _value status_field "done".
Proof.
  apply (proj2 (proj2 (X10_value_case_irrelevant "done" "DONE" eq_refl))).
  discriminate.
Defined.

(** ** The loop of the first version *)

Section LegacyLoop.

Variable graphql : list Mutation.t -> Mutation.t -> Response.
Variable projectId itemId : string.
Variable projectFields : list Field.t.

Lemma legacy_not_found (name value : string) (w : Eff.World) :
  find_field projectFields name = None ->
  legacy_update_item graphql projectId itemId projectFields (name, value) w
  = (Eff.Throw TypeError, w).
Proof. intros H. unfold legacy_update_item. now rewrite H. Qed.

Lemma legacy_found (name value : string) (field : Field.t) (w : Eff.World) :
  find_field projectFields name = Some field ->
  let m := Mutation.mk projectId itemId (Field.id field) value in
  legacy_update_item graphql projectId itemId projectFields (name, value) w
  = match graphql (Eff.requests w) m with
    | Resolves id =>
        (Eff.Normal tt,
         Eff.mkWorld (Eff.requests w ++ [m])
           (Eff.info w ++ [SuccessfullyUpdated name value id])
           (Eff.console w ++ [id]))
    | Rejects err => (Eff.Throw err, sent_one w m)
    end.
Proof.
  intros H m. unfold legacy_update_item. rewrite H.
  unfold Eff.bind, projectFieldUpdate, Eff.console_log, Eff.core_info. fold m.
  destruct (graphql (Eff.requests w) m); reflexivity.
Qed.

Lemma for_of_throw {A : Type} (body : A -> Eff.M unit)
    (before after : list A) (x : A) (w w1 w2 : Eff.World) (e : string) :
  Eff.for_of before body w = (Eff.Normal tt, w1) ->
  body x w1 = (Eff.Throw e, w2) ->
  Eff.for_of (before ++ x :: after) body w = (Eff.Throw e, w2).
Proof.
  revert w. induction before as [|y before IH]; intros w Hb Hx.
  - cbn in Hb. injection Hb as <-. cbn. unfold Eff.bind. now rewrite Hx.
  - cbn in Hb |- *. unfold Eff.bind in *.
    destruct (body y w) as [[[]|e'] w'] eqn:Hy; [|discriminate].
    now apply IH.
Qed.

End LegacyLoop.

(** X11: in the first version of the file the loop stops at the first entry
    that goes wrong.  When the entries before an entry were processed, an
    entry whose name is no field's name throws a TypeError before anything
    is sent for it, and an entry whose update the server rejects throws
    that error after its mutation was sent; in both cases no entry after it
    is looked at and no line is written for it. *)
Theorem X11_legacy_loop_aborts
    (graphql : list Mutation.t -> Mutation.t -> Response)
    (projectId itemId : string) (projectFields : list Field.t)
    (fields : Obj.t)
    (before after : list (string * string)) (name value : string)
    (w w1 : Eff.World) :
  Obj.entries fields = before ++ (name, value) :: after ->
  Eff.for_of before
    (legacy_update_item graphql projectId itemId projectFields) w
  = (Eff.Normal tt, w1) ->
  (find_field projectFields name = None ->
   legacy_update_project_items graphql projectId itemId projectFields
     (Some fields) w
   = (Eff.Throw TypeError, w1)) /\
  (forall field err,
     find_field projectFields name = Some field ->
     graphql (Eff.requests w1)
       (Mutation.mk projectId itemId (Field.id field) value) = Rejects err ->
     legacy_update_project_items graphql projectId itemId projectFields
       (Some fields) w
     = (Eff.Throw err,
        sent_one w1 (Mutation.mk projectId itemId (Field.id field) value))).
Proof.
  intros He Hb. unfold legacy_update_project_items. rewrite He. split.
  - intros Hf. apply (for_of_throw _ before after (name, value) w w1 w1 _ Hb).
    now apply legacy_not_found.
  - intros field err Hf Hr.
    apply (for_of_throw _ before after (name, value) w w1 _ _ Hb).
    rewrite (legacy_found graphql projectId itemId projectFields
               name value field w1 Hf).
    cbv zeta. now rewrite Hr.
Qed.

Lemma X11_legacy_loop_aborts_witness :
  legacy_update_project_items accept_all "P" "IT" example_schema
    (Some [("Notes", "hello"); ("Unknown", "x"); ("Status", "todo")])
    empty_world
  = (Eff.Throw TypeError,
     Eff.mkWorld [Mutation.mk "P" "IT" "F3" "hello"]
       [SuccessfullyUpdated "Notes" "hello" (Some "ITEM")]
       [Some "ITEM"]).
Proof.
  apply (proj1 (X11_legacy_loop_aborts accept_all "P" "IT" example_schema
                  [("Notes", "hello"); ("Unknown", "x"); ("Status", "todo")]
                  [("Notes", "hello")] [("Status", "todo")] "Unknown" "x"
                  empty_world _ eq_refl eq_refl)).
  reflexivity.
Defined.

Lemma legacy_for_of_accepted
    (graphql : list Mutation.t -> Mutation.t -> Response)
    (projectId itemId : string) (projectFields : list Field.t)
    (entries : list (string * string)) (w : Eff.World) :
  accepts_all graphql ->
  Forall (fun e => find_field projectFields (fst e) <> None) entries ->
  exists lines w',
    Eff.for_of entries
      (legacy_update_item graphql projectId itemId projectFields) w
    = (Eff.Normal tt, w') /\
    Eff.requests w'
    = Eff.requests w
      ++ filter_map (legacy_mutation_for projectId itemId projectFields) entries /\
    Eff.info w' = Eff.info w ++ lines /\
    Forall2 (fun e l => exists id, l = SuccessfullyUpdated (fst e) (snd e) id)
      entries lines.
Proof.
  intros Hacc Hall. revert w.
  induction Hall as [|[name value] entries Hf _ IH]; intros w.
  - exists [], w. cbn. rewrite !app_nil_r. repeat split. constructor.
  - cbn [fst] in Hf.
    destruct (find_field projectFields name) as [field|] eqn:Hfield;
      [|congruence].
    destruct (Hacc (Eff.requests w)
                (Mutation.mk projectId itemId (Field.id field) value))
      as (id & Hid).
    pose proof (legacy_found graphql projectId itemId projectFields
                  name value field w Hfield) as Hstep.
    cbv zeta in Hstep. rewrite Hid in Hstep.
    destruct (IH (Eff.mkWorld
                    (Eff.requests w
                     ++ [Mutation.mk projectId itemId (Field.id field) value])
                    (Eff.info w ++ [SuccessfullyUpdated name value id])
                    (Eff.console w ++ [id])))
      as (lines & w' & Hrun & Hreq & Hinfo & HF).
    exists (SuccessfullyUpdated name value id :: lines), w'.
    cbn [Eff.for_of]. unfold Eff.bind. rewrite Hstep. repeat split.
    + exact Hrun.
    + rewrite Hreq. cbn [Eff.requests filter_map].
      unfold legacy_mutation_for at 2. cbn [fst snd]. rewrite Hfield.
      now rewrite <- app_assoc.
    + rewrite Hinfo. cbn [Eff.info]. now rewrite <- app_assoc.
    + constructor; [now exists id | exact HF].
Qed.

(** X12: in the first version of the file, when every name of the request
    is the name of a field and the server rejects nothing, the loop runs to
    its end, sends one mutation per entry in order, each with the raw value
    as it was given (an option or iteration name is not turned into an id),
    and writes one success line per entry with that raw value. *)
Theorem X12_legacy_loop_sends_raw
    (graphql : list Mutation.t -> Mutation.t -> Response)
    (projectId itemId : string) (projectFields : list Field.t)
    (fields : Obj.t) (w : Eff.World) :
  accepts_all graphql ->
  Forall (fun e => find_field projectFields (fst e) <> None)
    (Obj.entries fields) ->
  exists lines w',
    legacy_update_project_items graphql projectId itemId projectFields
      (Some fields) w = (Eff.Normal tt, w') /\
    Eff.requests w'
    = Eff.requests w
      ++ filter_map (legacy_mutation_for projectId itemId projectFields)
           (Obj.entries fields) /\
    map Mutation.value
      (filter_map (legacy_mutation_for projectId itemId projectFields)
         (Obj.entries fields))
    = map snd (Obj.entries fields) /\
    Eff.info w' = Eff.info w ++ lines /\
    Forall2 (fun e l => exists id, l = SuccessfullyUpdated (fst e) (snd e) id)
      (Obj.entries fields) lines.
Proof.
  intros Hacc Hall.
  destruct (legacy_for_of_accepted graphql projectId itemId projectFields
              (Obj.entries fields) w Hacc Hall)
    as (lines & w' & Hrun & Hreq & Hinfo & HF).
  exists lines, w'. repeat split; try assumption.
  clear - Hall. induction Hall as [|[name value] entries Hf _ IH]; cbn.
  - reflexivity.
  - unfold legacy_mutation_for at 1. cbn [fst snd] in *.
    destruct (find_field projectFields name); [|congruence].
    cbn. now rewrite IH.
Qed.

Lemma accept_all_accepts : accepts_all accept_all.
Proof. intros history m. now exists (Some "ITEM"). Qed.

Lemma X12_legacy_loop_sends_raw_witness :
  exists lines w',
    legacy_update_project_items accept_all "P" "IT" example_schema
      (Some [("Status", "todo")]) empty_world = (Eff.Normal tt, w') /\
    Eff.requests w'
    = Eff.requests empty_world
      ++ filter_map (legacy_mutation_for "P" "IT" example_schema)
           (Obj.entries [("Status", "todo")]) /\
    map Mutation.value
      (filter_map (legacy_mutation_for "P" "IT" example_schema)
         (Obj.entries [("Status", "todo")]))
    = map snd (Obj.entries [("Status", "todo")]) /\
    Eff.info w' = Eff.info empty_world ++ lines /\
    Forall2 (fun e l => exists id, l = SuccessfullyUpdated (fst e) (snd e) id)
      (Obj.entries [("Status", "todo")]) lines.
Proof.
  apply (X12_legacy_loop_sends_raw accept_all "P" "IT" example_schema
           [("Status", "todo")] empty_world accept_all_accepts).
  repeat constructor. discriminate.
Defined.




(** ** run as a whole *)

Section RunProperties.

Variable getOctokit_error : string -> option string.
Variable graphql_project : ProjectQuery -> ProjectResponse.
Variable graphql_fields : string -> FieldsResponse.
Variable graphql : list Mutation.t -> Mutation.t -> Response.

Lemma projectGet_query (env : InputEnv.t) (inputs : Input.t) (s : Proc.State) :
  getInputs env = Eff.Normal inputs ->
  projectGet graphql_project (Input.projectNumber inputs)
    (Input.organization inputs) (Input.user inputs) s
  = (match graphql_project (query_of inputs) with
     | ProjectResolves p => Eff.Normal p
     | ProjectRejects err => Eff.Throw err
     end,
     Proc.mkState (Proc.world s) (Proc.queries s ++ [query_of inputs])
       (Proc.fetches s) (Proc.outputs s)).
Proof.
  intros H. destruct (getInputs_owner env inputs H) as (_ & _ & Hne).
  unfold projectGet, query_of, owner_of.
  destruct (nonempty (Input.user inputs)).
  - destruct (graphql_project _); reflexivity.
  - rewrite (Hne eq_refl). destruct (graphql_project _); reflexivity.
Qed.

(** [run] up to the answer to the project query. *)
Lemma run_project_answer (context : Context.t) (env : InputEnv.t)
    (inputs : Input.t) (s : Proc.State) (p : option Project.t) :
  context_ok context ->
  getInputs env = Eff.Normal inputs ->
  getOctokit_error (Input.token inputs) = None ->
  graphql_project (query_of inputs) = ProjectResolves p ->
  run getOctokit_error graphql_project graphql_fields graphql context env s
  = match p with
    | Some (Project.mk title (Some (String c id'))) =>
        Proc.bind
          match Input.fields inputs with
          | Some fields =>
              Proc.bind (Proc.output StartGroupUpdate) (fun _ =>
              Proc.bind (projectFieldsGet graphql_fields (String c id'))
                (fun projectFields =>
              Proc.bind (update_loop graphql (String c id')
                           (Input.itemId inputs) projectFields fields)
                (fun _ => Proc.output EndGroup)))
          | None => Proc.ret tt
          end
          (fun _ => Proc.output
                      (InfoSummary title (owner_of inputs)
                         (Input.projectNumber inputs)))
          (after_project s inputs p)
    | _ => (Eff.Normal tt,
            Proc.mkState (Proc.world s) (Proc.queries s ++ [query_of inputs])
              (Proc.fetches s)
              (Proc.outputs s
               ++ [StartGroupProject (Input.projectNumber inputs);
                   InfoProject p; EndGroup;
                   SetFailed (ProjectNotFound (Input.projectNumber inputs)
                                (Input.login inputs))]))
    end.
Proof.
  intros [Hc Hp] Hin Ho Hq. unfold run. rewrite Hc, Hp. cbn [negb].
  unfold Proc.bind at 1. unfold Proc.of_completion. rewrite Hin.
  unfold Proc.bind at 1. unfold getOctokit. rewrite Ho. unfold Proc.ret at 1.
  unfold Proc.bind at 1. unfold Proc.output at 1.
  unfold Proc.bind at 1.
  rewrite (projectGet_query env inputs _ Hin), Hq.
  unfold Proc.bind at 1. unfold Proc.output at 1.
  unfold Proc.bind at 1. unfold Proc.output at 1.
  cbn [Proc.world Proc.queries Proc.fetches Proc.outputs].
  unfold after_project, owner_of. rewrite <- !app_assoc. cbn [app].
  destruct p as [[title [[|c id']|]]|]; try reflexivity;
    unfold Proc.output;
    cbn [Proc.world Proc.queries Proc.fetches Proc.outputs];
    rewrite <- !app_assoc; reflexivity.
Qed.

End RunProperties.

Lemma getInputs_fields_of (env : InputEnv.t) (inputs : Input.t) :
  getInputs env = Eff.Normal inputs ->
  Input.fields inputs
  = getInputs_fields (InputEnv.field_names env) (InputEnv.field_values env) /\
  Input.itemId inputs = InputEnv.item_id env.
Proof.
  unfold getInputs.
  destruct (JS.parseInt (InputEnv.project_number env)); [|discriminate].
  destruct (if nonempty (InputEnv.organization env)
            then Eff.Normal (InputEnv.organization env)
            else context_repo_owner env) as [organization|e]; [|discriminate].
  destruct (nonempty organization).
  - intros [= <-]. split; reflexivity.
  - destruct (nonempty (InputEnv.user env)); [|discriminate].
    intros [= <-]. split; reflexivity.
Qed.

Ltac run_steps :=
  unfold Proc.bind, Proc.output, Proc.ret, Proc.throw, Proc.lift,
    projectFieldsGet, update_loop, after_project;
  cbn [Proc.world Proc.queries Proc.fetches Proc.outputs].

(** X14: when the project query is answered with no project, or with one
    that has no id, [run] reports the failure "project not found" with the
    number and the login, and stops there: it fetches no schema, sends no
    mutation and writes no line for any field, whatever the request is. *)
Theorem X14_run_project_not_found
    (getOctokit_error : string -> option string)
    (graphql_project : ProjectQuery -> ProjectResponse)
    (graphql_fields : string -> FieldsResponse)
    (graphql : list Mutation.t -> Mutation.t -> Response)
    (context : Context.t) (env : InputEnv.t) (inputs : Input.t)
    (s : Proc.State) (p : option Project.t) :
  context_ok context ->
  getInputs env = Eff.Normal inputs ->
  getOctokit_error (Input.token inputs) = None ->
  graphql_project (query_of inputs) = ProjectResolves p ->
  lacks_id p ->
  run getOctokit_error graphql_project graphql_fields graphql context env s
  = (Eff.Normal tt,
     Proc.mkState (Proc.world s) (Proc.queries s ++ [query_of inputs])
       (Proc.fetches s)
       (Proc.outputs s
        ++ [StartGroupProject (Input.projectNumber inputs);
            InfoProject p; EndGroup;
            SetFailed (ProjectNotFound (Input.projectNumber inputs)
                         (Input.login inputs))])).
Proof.
  intros Hc Hin Ho Hq Hp.
  rewrite (run_project_answer getOctokit_error graphql_project graphql_fields
             graphql context env inputs s p Hc Hin Ho Hq).
  destruct p as [[title [[|c id']|]]|]; try reflexivity.
  cbn in Hp. destruct Hp; discriminate.
Qed.

Lemma X14_run_project_not_found_witness :
  run client_ok no_project fields_unused
    accept_all (Context.mk true true)
    (InputEnv.mk "t" "5" "I" "" "" "Status" "todo" "acme" None) initial_state
  = (Eff.Normal tt,
     Proc.mkState empty_world [Some (OfOrganization "acme", 5%Z)] []
       [StartGroupProject 5; InfoProject None; EndGroup;
        SetFailed (ProjectNotFound 5 "acme")]).
Proof.
  exact (X14_run_project_not_found client_ok no_project
           fields_unused accept_all (Context.mk true true)
           (InputEnv.mk "t" "5" "I" "" "" "Status" "todo" "acme" None) _
           initial_state None (conj eq_refl eq_refl) eq_refl eq_refl eq_refl I).
Defined.

(** X15: with an empty field-names input [run] has no request: once the
    project is found it fetches no schema and sends no mutation, and it
    still ends with the summary line for the project. *)
Theorem X15_run_without_names
    (getOctokit_error : string -> option string)
    (graphql_project : ProjectQuery -> ProjectResponse)
    (graphql_fields : string -> FieldsResponse)
    (graphql : list Mutation.t -> Mutation.t -> Response)
    (context : Context.t) (env : InputEnv.t) (inputs : Input.t)
    (s : Proc.State) (title id : string) :
  context_ok context ->
  getInputs env = Eff.Normal inputs ->
  getOctokit_error (Input.token inputs) = None ->
  InputEnv.field_names env = "" ->
  graphql_project (query_of inputs)
  = ProjectResolves (Some (Project.mk title (Some id))) ->
  id <> "" ->
  run getOctokit_error graphql_project graphql_fields graphql context env s
  = (Eff.Normal tt,
     Proc.mkState (Proc.world s) (Proc.queries s ++ [query_of inputs])
       (Proc.fetches s)
       (Proc.outputs s
        ++ [StartGroupProject (Input.projectNumber inputs);
            InfoProject (Some (Project.mk title (Some id))); EndGroup;
            InfoSummary title (owner_of inputs) (Input.projectNumber inputs)])).
Proof.
  intros Hc Hin Ho Hn Hq Hid.
  rewrite (run_project_answer getOctokit_error graphql_project graphql_fields
             graphql context env inputs s _ Hc Hin Ho Hq).
  destruct id as [|c id']; [congruence|].
  destruct (getInputs_fields_of env inputs Hin) as [Hf _].
  rewrite Hf, Hn. cbn [getInputs_fields String.eqb].
  run_steps. now rewrite <- app_assoc.
Qed.

Lemma X15_run_without_names_witness :
  run client_ok roadmap
    fields_unused reject_all (Context.mk true true)
    (InputEnv.mk "t" "5" "I" "" "octocat" "" "todo" "acme" None) initial_state
  = (Eff.Normal tt,
     Proc.mkState empty_world [Some (OfUser "octocat", 5%Z)] []
       [StartGroupProject 5;
        InfoProject (Some (Project.mk "Roadmap" (Some "PN_1"))); EndGroup;
        InfoSummary "Roadmap" (OfUser "octocat") 5]).
Proof.
  apply (X15_run_without_names
           client_ok
           roadmap
           fields_unused reject_all (Context.mk true true)
           (InputEnv.mk "t" "5" "I" "" "octocat" "" "todo" "acme" None) _
           initial_state "Roadmap" "PN_1" (conj eq_refl eq_refl) eq_refl
           eq_refl eq_refl eq_refl).
  discriminate.
Defined.

(** X16: once the project is found and its schema fetched, [run] always
    ends normally with the summary line and never reports a failure,
    whatever the server answers to the updates, even if it rejects every
    one of them.  The schema is fetched once, for the id of the project
    found; the mutations are those of the loop for that project id and the
    item-id input, and one line is written per entry of the request. *)
Theorem X16_run_succeeds_despite_rejections
    (getOctokit_error : string -> option string)
    (graphql_project : ProjectQuery -> ProjectResponse)
    (graphql_fields : string -> FieldsResponse)
    (graphql : list Mutation.t -> Mutation.t -> Response)
    (context : Context.t) (env : InputEnv.t) (inputs : Input.t)
    (s : Proc.State) (title id : string) (fields : Obj.t)
    (nodes : list Field.t) :
  context_ok context ->
  getInputs env = Eff.Normal inputs ->
  getOctokit_error (Input.token inputs) = None ->
  Input.fields inputs = Some fields ->
  graphql_project (query_of inputs)
  = ProjectResolves (Some (Project.mk title (Some id))) ->
  id <> "" ->
  graphql_fields id = FieldsResolves (Some nodes) ->
  exists lines w',
    run getOctokit_error graphql_project graphql_fields graphql context env s
    = (Eff.Normal tt,
       Proc.mkState w' (Proc.queries s ++ [query_of inputs])
         (Proc.fetches s ++ [id])
         (Proc.outputs s
          ++ [StartGroupProject (Input.projectNumber inputs);
              InfoProject (Some (Project.mk title (Some id))); EndGroup;
              StartGroupUpdate; EndGroup;
              InfoSummary title (owner_of inputs)
                (Input.projectNumber inputs)])) /\
    Eff.requests w'
    = Eff.requests (Proc.world s)
      ++ filter_map (mutation_for id (InputEnv.item_id env) nodes)
           (Obj.entries fields) /\
    Eff.info w' = Eff.info (Proc.world s) ++ lines /\
    List.length lines = List.length (Obj.entries fields).
Proof.
  intros Hc Hin Ho Hf Hq Hid Hg.
  destruct (getInputs_fields_of env inputs Hin) as [_ Hitem].
  destruct (for_of_outcomes graphql id (Input.itemId inputs) nodes
              (Obj.entries fields) (Proc.world s))
    as (lines & w' & Hrun & Hinfo & HF).
  exists lines, w'. repeat split.
  - rewrite (run_project_answer getOctokit_error graphql_project graphql_fields
               graphql context env inputs s _ Hc Hin Ho Hq).
    destruct id as [|c id']; [congruence|]. rewrite Hf.
    run_steps. rewrite Hg. cbn [Proc.world Proc.queries Proc.fetches Proc.outputs].
    unfold update_project_items, Proc.lift. cbn [Proc.world]. rewrite Hrun.
    cbn [Proc.world Proc.queries Proc.fetches Proc.outputs].
    now rewrite <- !app_assoc.
  - pose proof (for_of_requests graphql id (Input.itemId inputs) nodes
                  (Obj.entries fields) (Proc.world s)) as Hreq.
    rewrite Hrun in Hreq. cbn [snd] in Hreq. now rewrite <- Hitem.
  - exact Hinfo.
  - symmetry. exact (Forall2_length HF).
Qed.

Lemma X16_run_succeeds_despite_rejections_witness :
  exists lines w',
    run client_ok roadmap
      (fun _ => FieldsResolves (Some example_schema)) reject_all
      (Context.mk true true)
      (InputEnv.mk "t" "5" "I" "" "" "Status,Nope" "todo,x" "acme" None)
      initial_state
    = (Eff.Normal tt,
       Proc.mkState w' [Some (OfOrganization "acme", 5%Z)] ["PN_1"]
         [StartGroupProject 5;
          InfoProject (Some (Project.mk "Roadmap" (Some "PN_1"))); EndGroup;
          StartGroupUpdate; EndGroup;
          InfoSummary "Roadmap" (OfOrganization "acme") 5]) /\
    Eff.requests w'
    = [] ++ filter_map (mutation_for "PN_1" "I" example_schema)
              (Obj.entries [("Status", "todo"); ("Nope", "x")]) /\
    Eff.info w' = [] ++ lines /\
    List.length lines
    = List.length (Obj.entries [("Status", "todo"); ("Nope", "x")]).
Proof.
  apply (X16_run_succeeds_despite_rejections
           client_ok
           roadmap
           (fun _ => FieldsResolves (Some example_schema)) reject_all
           (Context.mk true true)
           (InputEnv.mk "t" "5" "I" "" "" "Status,Nope" "todo,x" "acme" None) _
           initial_state "Roadmap" "PN_1" [("Status", "todo"); ("Nope", "x")]
           example_schema (conj eq_refl eq_refl) eq_refl eq_refl eq_refl eq_refl).
  - discriminate.
  - reflexivity.
Defined.

(** X17: when the schema request answers without a list of fields, [run]
    throws a TypeError at the first entry of the request, before any
    mutation is sent or any line written, and writes no summary; only with
    a request that has no entry does it go on to the summary. *)
Theorem X17_run_schema_missing
    (getOctokit_error : string -> option string)
    (graphql_project : ProjectQuery -> ProjectResponse)
    (graphql_fields : string -> FieldsResponse)
    (graphql : list Mutation.t -> Mutation.t -> Response)
    (context : Context.t) (env : InputEnv.t) (inputs : Input.t)
    (s : Proc.State) (title id : string) (fields : Obj.t) :
  context_ok context ->
  getInputs env = Eff.Normal inputs ->
  getOctokit_error (Input.token inputs) = None ->
  Input.fields inputs = Some fields ->
  graphql_project (query_of inputs)
  = ProjectResolves (Some (Project.mk title (Some id))) ->
  id <> "" ->
  graphql_fields id = FieldsResolves None ->
  (Obj.entries fields <> [] ->
   run getOctokit_error graphql_project graphql_fields graphql context env s
   = (Eff.Throw TypeError,
      Proc.mkState (Proc.world s) (Proc.queries s ++ [query_of inputs])
        (Proc.fetches s ++ [id])
        (Proc.outputs s
         ++ [StartGroupProject (Input.projectNumber inputs);
             InfoProject (Some (Project.mk title (Some id))); EndGroup;
             StartGroupUpdate]))) /\
  (Obj.entries fields = [] ->
   run getOctokit_error graphql_project graphql_fields graphql context env s
   = (Eff.Normal tt,
      Proc.mkState (Proc.world s) (Proc.queries s ++ [query_of inputs])
        (Proc.fetches s ++ [id])
        (Proc.outputs s
         ++ [StartGroupProject (Input.projectNumber inputs);
             InfoProject (Some (Project.mk title (Some id))); EndGroup;
             StartGroupUpdate; EndGroup;
             InfoSummary title (owner_of inputs)
               (Input.projectNumber inputs)]))).
Proof.
  intros Hc Hin Ho Hf Hq Hid Hg.
  rewrite (run_project_answer getOctokit_error graphql_project graphql_fields
             graphql context env inputs s _ Hc Hin Ho Hq).
  destruct id as [|c id']; [congruence|]. rewrite Hf.
  run_steps. rewrite Hg.
  cbn [Proc.world Proc.queries Proc.fetches Proc.outputs].
  split; intros He.
  - destruct (Obj.entries fields); [congruence|].
    unfold Proc.throw. now rewrite <- !app_assoc.
  - rewrite He. unfold Proc.ret.
    cbn [Proc.world Proc.queries Proc.fetches Proc.outputs].
    now rewrite <- !app_assoc.
Qed.

Lemma X17_run_schema_missing_witness :
  run client_ok roadmap
    (fun _ => FieldsResolves None) accept_all (Context.mk true true)
    (InputEnv.mk "t" "5" "I" "" "" "Status" "todo" "acme" None) initial_state
  = (Eff.Throw TypeError,
     Proc.mkState empty_world [Some (OfOrganization "acme", 5%Z)] ["PN_1"]
       [StartGroupProject 5;
        InfoProject (Some (Project.mk "Roadmap" (Some "PN_1"))); EndGroup;
        StartGroupUpdate]).
Proof.
  refine (proj1 (X17_run_schema_missing
            client_ok
            roadmap
            (fun _ => FieldsResolves None) accept_all (Context.mk true true)
            (InputEnv.mk "t" "5" "I" "" "" "Status" "todo" "acme" None) _
            initial_state "Roadmap" "PN_1" [("Status", "todo")]
            (conj eq_refl eq_refl) eq_refl eq_refl eq_refl eq_refl _ eq_refl) _);
    discriminate.
Defined.

Lemma run_project_rejected
    (getOctokit_error : string -> option string)
    (graphql_project : ProjectQuery -> ProjectResponse)
    (graphql_fields : string -> FieldsResponse)
    (graphql : list Mutation.t -> Mutation.t -> Response)
    (context : Context.t) (env : InputEnv.t) (inputs : Input.t)
    (s : Proc.State) (err : string) :
  context_ok context ->
  getInputs env = Eff.Normal inputs ->
  getOctokit_error (Input.token inputs) = None ->
  graphql_project (query_of inputs) = ProjectRejects err ->
  run getOctokit_error graphql_project graphql_fields graphql context env s
  = (Eff.Throw err,
     Proc.mkState (Proc.world s) (Proc.queries s ++ [query_of inputs])
       (Proc.fetches s)
       (Proc.outputs s ++ [StartGroupProject (Input.projectNumber inputs)])).
Proof.
  intros [Hc Hp] Hin Ho Hq. unfold run. rewrite Hc, Hp. cbn [negb].
  unfold Proc.bind at 1. unfold Proc.of_completion. rewrite Hin.
  unfold Proc.bind at 1. unfold getOctokit. rewrite Ho. unfold Proc.ret at 1.
  unfold Proc.bind at 1. unfold Proc.output at 1.
  unfold Proc.bind at 1.
  now rewrite (projectGet_query graphql_project env inputs _ Hin), Hq.
Qed.

Lemma run_client_error
    (getOctokit_error : string -> option string)
    (graphql_project : ProjectQuery -> ProjectResponse)
    (graphql_fields : string -> FieldsResponse)
    (graphql : list Mutation.t -> Mutation.t -> Response)
    (context : Context.t) (env : InputEnv.t) (inputs : Input.t)
    (s : Proc.State) (e : string) :
  context_ok context ->
  getInputs env = Eff.Normal inputs ->
  getOctokit_error (Input.token inputs) = Some e ->
  run getOctokit_error graphql_project graphql_fields graphql context env s
  = (Eff.Throw e, s).
Proof.
  intros [Hc Hp] Hin Ho. unfold run. rewrite Hc, Hp. cbn [negb].
  unfold Proc.bind at 1. unfold Proc.of_completion. rewrite Hin.
  unfold Proc.bind at 1. unfold getOctokit. now rewrite Ho.
Qed.

Lemma snoc_neq {A : Type} (l : list A) (x : A) : l ++ [x] <> l.
Proof.
  intros E. apply (f_equal (@List.length A)) in E.
  rewrite length_app in E. cbn in E. lia.
Qed.

(** X18: in every run, whatever the inputs and whatever the server answers,
    the project query is sent at most once and the schema is fetched at
    most once; no schema is fetched unless the project was queried, and no
    mutation is sent and no line written for a field unless the schema was
    fetched. *)
Theorem X18_run_order_of_requests
    (getOctokit_error : string -> option string)
    (graphql_project : ProjectQuery -> ProjectResponse)
    (graphql_fields : string -> FieldsResponse)
    (graphql : list Mutation.t -> Mutation.t -> Response)
    (context : Context.t) (env : InputEnv.t) (s : Proc.State) :
  let s' :=
    snd (run getOctokit_error graphql_project graphql_fields graphql
           context env s) in
  (exists qs, Proc.queries s' = Proc.queries s ++ qs /\ List.length qs <= 1) /\
  (exists fs, Proc.fetches s' = Proc.fetches s ++ fs /\ List.length fs <= 1) /\
  (Proc.queries s' = Proc.queries s -> Proc.fetches s' = Proc.fetches s) /\
  (Proc.fetches s' = Proc.fetches s -> Proc.world s' = Proc.world s).
Proof.
  assert (Same : forall c o,
            let s' := snd (c : Eff.Completion unit,
                           Proc.mkState (Proc.world s) (Proc.queries s)
                             (Proc.fetches s) o) in
            (exists qs, Proc.queries s' = Proc.queries s ++ qs /\
                        List.length qs <= 1) /\
            (exists fs, Proc.fetches s' = Proc.fetches s ++ fs /\
                        List.length fs <= 1) /\
            (Proc.queries s' = Proc.queries s ->
             Proc.fetches s' = Proc.fetches s) /\
            (Proc.fetches s' = Proc.fetches s ->
             Proc.world s' = Proc.world s)).
  { intros c o. cbn. repeat split; try (exists []; rewrite app_nil_r; auto). }
  assert (Queried : forall c q o,
            let s' := snd (c : Eff.Completion unit,
                           Proc.mkState (Proc.world s) (Proc.queries s ++ [q])
                             (Proc.fetches s) o) in
            (exists qs, Proc.queries s' = Proc.queries s ++ qs /\
                        List.length qs <= 1) /\
            (exists fs, Proc.fetches s' = Proc.fetches s ++ fs /\
                        List.length fs <= 1) /\
            (Proc.queries s' = Proc.queries s ->
             Proc.fetches s' = Proc.fetches s) /\
            (Proc.fetches s' = Proc.fetches s ->
             Proc.world s' = Proc.world s)).
  { intros c q o. cbn. repeat split.
    - now exists [q].
    - exists []. rewrite app_nil_r. auto. }
  assert (Fetched : forall c w q f o,
            let s' := snd (c : Eff.Completion unit,
                           Proc.mkState w (Proc.queries s ++ [q])
                             (Proc.fetches s ++ [f]) o) in
            (exists qs, Proc.queries s' = Proc.queries s ++ qs /\
                        List.length qs <= 1) /\
            (exists fs, Proc.fetches s' = Proc.fetches s ++ fs /\
                        List.length fs <= 1) /\
            (Proc.queries s' = Proc.queries s ->
             Proc.fetches s' = Proc.fetches s) /\
            (Proc.fetches s' = Proc.fetches s ->
             Proc.world s' = Proc.world s)).
  { intros c w q f o. cbn. repeat split.
    - now exists [q].
    - now exists [f].
    - intros E. now apply snoc_neq in E.
    - intros E. now apply snoc_neq in E. }
  destruct (Context.has_context context) eqn:Hc;
    [|unfold run; rewrite Hc; apply (Same _ _)].
  destruct (Context.has_payload context) eqn:Hp;
    [|unfold run; rewrite Hc, Hp; apply (Same _ _)].
  destruct (getInputs env) as [inputs|e] eqn:Hin.
  2:{ unfold run. rewrite Hc, Hp. cbn [negb].
      unfold Proc.bind, Proc.of_completion. rewrite Hin.
      destruct s. apply (Same _ _). }
  destruct (getOctokit_error (Input.token inputs)) as [e|] eqn:Ho.
  { rewrite (run_client_error getOctokit_error graphql_project graphql_fields
               graphql context env inputs s e (conj Hc Hp) Hin Ho).
    destruct s. apply (Same _ _). }
  destruct (graphql_project (query_of inputs)) as [p|err] eqn:Hq.
  2:{ rewrite (run_project_rejected getOctokit_error graphql_project
                 graphql_fields graphql context env inputs s err
                 (conj Hc Hp) Hin Ho Hq).
      apply (Queried _ _ _). }
  rewrite (run_project_answer getOctokit_error graphql_project graphql_fields
             graphql context env inputs s p (conj Hc Hp) Hin Ho Hq).
  destruct p as [[title [[|c id']|]]|]; try apply (Queried _ _ _).
  destruct (Input.fields inputs) as [fields|].
  2:{ run_steps. apply (Queried _ _ _). }
  run_steps.
  destruct (graphql_fields (String c id')) as [[nodes|]|err].
  - unfold Proc.lift. cbn [Proc.world].
    destruct (for_of_outcomes graphql (String c id') (Input.itemId inputs)
                nodes (Obj.entries fields) (Proc.world s))
      as (lines & w' & Hrun & _).
    unfold update_project_items. rewrite Hrun.
    cbn [Proc.world Proc.queries Proc.fetches Proc.outputs].
    apply (Fetched _ _ _ _ _).
  - destruct (Obj.entries fields); apply (Fetched _ _ _ _ _).
  - apply (Fetched _ _ _ _ _).
Qed.

Lemma X18_run_order_of_requests_witness :
  Proc.world
    (snd (run client_ok no_project fields_unused
            accept_all (Context.mk true true)
            (InputEnv.mk "t" "5" "I" "" "" "Status" "todo" "acme" None)
            initial_state))
  = Proc.world initial_state.
Proof.
  apply (X18_run_order_of_requests client_ok no_project
           fields_unused accept_all (Context.mk true true)
           (InputEnv.mk "t" "5" "I" "" "" "Status" "todo" "acme" None)
           initial_state).
  reflexivity.
Defined.

(** X19: the checks of [run] come before any request.  Without a context or
    without an event payload, [run] reports that failure and returns
    normally without reading the inputs; with them, an error of
    [getInputs], and after it an error of [getOctokit] for the token,
    leaves [run] as an exception; in all these cases nothing was queried,
    fetched or sent. *)
Theorem X19_run_checks_first
    (getOctokit_error : string -> option string)
    (graphql_project : ProjectQuery -> ProjectResponse)
    (graphql_fields : string -> FieldsResponse)
    (graphql : list Mutation.t -> Mutation.t -> Response)
    (context : Context.t) (env : InputEnv.t) (s : Proc.State) :
  (Context.has_context context = false ->
   run getOctokit_error graphql_project graphql_fields graphql context env s
   = (Eff.Normal tt,
      Proc.mkState (Proc.world s) (Proc.queries s) (Proc.fetches s)
        (Proc.outputs s ++ [SetFailed NoGitHubContext]))) /\
  (Context.has_context context = true ->
   Context.has_payload context = false ->
   run getOctokit_error graphql_project graphql_fields graphql context env s
   = (Eff.Normal tt,
      Proc.mkState (Proc.world s) (Proc.queries s) (Proc.fetches s)
        (Proc.outputs s ++ [SetFailed NoEvent]))) /\
  (forall e, context_ok context -> getInputs env = Eff.Throw e ->
   run getOctokit_error graphql_project graphql_fields graphql context env s
   = (Eff.Throw e, s)) /\
  (forall inputs e, context_ok context ->
   getInputs env = Eff.Normal inputs ->
   getOctokit_error (Input.token inputs) = Some e ->
   run getOctokit_error graphql_project graphql_fields graphql context env s
   = (Eff.Throw e, s)).
Proof.
  repeat split.
  - intros Hc. unfold run. now rewrite Hc.
  - intros Hc Hp. unfold run. now rewrite Hc, Hp.
  - intros e [Hc Hp] Hin. unfold run. rewrite Hc, Hp. cbn [negb].
    unfold Proc.bind, Proc.of_completion. now rewrite Hin.
  - intros inputs e Hc Hin Ho. now apply run_client_error with (inputs := inputs).
Qed.

Lemma X19_run_checks_first_witness :
  run client_ok no_project
    fields_unused accept_all (Context.mk true true)
    (InputEnv.mk "t" "" "I" "" "" "Status" "todo" "acme" None) initial_state
  = (Eff.Throw "No input 'projectNumber'", initial_state).
Proof.
  apply (proj1 (proj2 (proj2
           (X19_run_checks_first client_ok no_project
              fields_unused accept_all
              (Context.mk true true)
              (InputEnv.mk "t" "" "I" "" "" "Status" "todo" "acme" None)
              initial_state)))).
  - split; reflexivity.
  - reflexivity.
Defined.

(** ** The value in the text of the mutation *)

Lemma read_body_escape (c : ascii) (rest : string) :
  JSON.read_body (JSON.escape c ++ rest)%string
  = option_map (String c) (JSON.read_body rest).
Proof.
  destruct c as [[] [] [] [] [] [] [] []]; reflexivity.
Qed.

Lemma append_assoc (a b c : string) :
  ((a ++ b) ++ c)%string = (a ++ (b ++ c))%string.
Proof. induction a as [|x a IH]; cbn; [reflexivity | now rewrite IH]. Qed.

Lemma read_body_escape_all (s : string) :
  JSON.read_body (JSON.escape_all s ++ String JSON.quote "")%string = Some s.
Proof.
  induction s as [|c s IH]; [reflexivity|].
  cbn [JSON.escape_all]. rewrite append_assoc, read_body_escape, IH.
  reflexivity.
Qed.

(** X20: the value of a mutation is written into the request text with
    [JSON.stringify], which loses nothing and cannot be broken out of:
    the text is one string literal, also for a value made of digits, and
    reading that literal gives back the value, whatever quotes,
    backslashes or control characters the value holds; so two different
    values never give the same text. *)
Theorem X20_stringify_round_trip (value : string) :
  JSON.read (JSON.stringify value) = Some value /\
  (exists body, JSON.stringify value = String JSON.quote body) /\
  (forall value', JSON.stringify value = JSON.stringify value' ->
     value = value').
Proof.
  assert (R : forall v, JSON.read (JSON.stringify v) = Some v).
  { intros v. unfold JSON.read, JSON.stringify.
    rewrite Ascii.eqb_refl. apply read_body_escape_all. }
  repeat split.
  - apply R.
  - eexists. reflexivity.
  - intros value' E. pose proof (R value) as H. rewrite E, R in H. congruence.
Qed.

Lemma X20_stringify_round_trip_witness :
  JSON.read (JSON.stringify "C:\\temp") = Some "C:\\temp".
Proof.
  exact (proj1 (X20_stringify_round_trip "C:\\temp")).
Defined.

(** ** split and the text between the commas *)

Lemma split_go_nonempty (s cur : string) : JS.split_go "," s cur <> [].
Proof.
  revert cur. induction s as [|c s IH]; intros cur; cbn; [discriminate|].
  destruct (Ascii.eqb c ","); [discriminate | apply IH].
Qed.

Lemma concat_cons (sep x : string) (l : list string) :
  l <> [] ->
  String.concat sep (x :: l) = (x ++ sep ++ String.concat sep l)%string.
Proof. destruct l; [congruence | reflexivity]. Qed.

Lemma append_empty_r (a : string) : (a ++ "")%string = a.
Proof. induction a as [|x a IH]; cbn; [reflexivity | now rewrite IH]. Qed.

Lemma concat_split_go (s cur : string) :
  String.concat "," (JS.split_go "," s cur) = (cur ++ s)%string.
Proof.
  revert cur. induction s as [|c s IH]; intros cur; cbn [JS.split_go].
  - now rewrite append_empty_r.
  - destruct (Ascii.eqb_spec c ",") as [->|Hc].
    + rewrite concat_cons by apply split_go_nonempty.
      rewrite IH. reflexivity.
    + rewrite IH. apply append_assoc.
Qed.

(** X21: the names and the values are taken exactly as they stand between
    the commas: nothing is trimmed or dropped by the splitting, so that
    joining the pieces with commas gives the input back, and an input with
    [n] commas has [n + 1] positions, the empty input having one, which is
    empty. *)
Theorem X21_split_keeps_text (s : string) :
  String.concat "," (JS.split "," s) = s /\
  List.length (JS.split "," s) = S (commas s) /\
  (forall piece, In piece (JS.split "," s) -> comma_free piece = true).
Proof.
  repeat split.
  - apply (concat_split_go s "").
  - apply split_go_length.
  - intros piece. now apply split_go_comma_free.
Qed.

Lemma X21_split_keeps_text_witness :
  comma_free " Notes" = true.
Proof.
  apply (proj2 (proj2 (X21_split_keeps_text "Status, Notes"))).
  right. now left.
Defined.
